(** * Tree_gen.py: class-file tree generator

    A shallow embedding of [Assets/Scripts/Runtime/Framework/Tree_gen.py]:
    the Extractor ([extract_class_info]), the Tree Walker
    ([scan_directory]) and the document assembler ([generate_markdown]),
    together with the properties of the specification that concern them.

    Python [str] values are sequences of Unicode code points; they are
    modelled as lists of code points ([N]), so that lengths, slices and
    comparisons count code points the way Python does. *)

From Stdlib Require Import String Ascii.
From Stdlib Require Import List NArith ZArith Bool Lia Sorted Permutation.
Import ListNotations.

Set Implicit Arguments.

(** ** Python strings *)

Module PyStr.

Definition char := N.
Definition str := list char.

(** ASCII literal of the source, as a sequence of code points. *)
Definition lit (s : String.string) : str :=
  map N_of_ascii (String.list_ascii_of_string s).

Arguments lit s%_string.

Definition NL : char := 10%N.      (* '\n' *)
Definition SP : char := 32%N.      (* ' '  *)
Definition SLASH : char := 47%N.   (* '/'  *)

(** [str.isspace] on one code point, which is also the class [\s] of a
    [str] pattern: the ASCII table (TAB..CR, FS..US, SPACE) and the code
    points with the Unicode White_Space property. *)
Definition isspace (c : char) : bool :=
  ((9 <=? c) && (c <=? 13) || (28 <=? c) && (c <=? 32)
   || (c =? 0x85) || (c =? 0xA0) || (c =? 0x1680)
   || (0x2000 <=? c) && (c <=? 0x200A)
   || (c =? 0x2028) || (c =? 0x2029) || (c =? 0x202F)
   || (c =? 0x205F) || (c =? 0x3000))%N.

Definition char_eqb (a b : char) : bool := N.eqb a b.

Fixpoint str_eqb (a b : str) : bool :=
  match a, b with
  | [], [] => true
  | x :: a', y :: b' => char_eqb x y && str_eqb a' b'
  | _, _ => false
  end.

(** [s.startswith(p)] *)
Fixpoint startswith (s p : str) {struct p} : bool :=
  match p, s with
  | [], _ => true
  | x :: p', y :: s' => char_eqb x y && startswith s' p'
  | _ :: _, [] => false
  end.

(** [s.endswith(p)] *)
Definition endswith (s p : str) : bool := startswith (rev s) (rev p).

(** [sub in s] *)
Fixpoint contains (sub s : str) : bool :=
  startswith s sub ||
  match s with
  | [] => false
  | _ :: s' => contains sub s'
  end.

(** [s.lstrip()], [s.rstrip()], [s.strip()] *)
Fixpoint lstrip (s : str) : str :=
  match s with
  | c :: s' => if isspace c then lstrip s' else s
  | [] => []
  end.

Definition rstrip (s : str) : str := rev (lstrip (rev s)).

Definition strip (s : str) : str := rstrip (lstrip s).

(** [s.replace(a, b)] for one-character [a] and [b]. *)
Definition replace_char (a b : char) (s : str) : str :=
  map (fun c => if char_eqb c a then b else c) s.

(** [s.split('\n')] *)
Fixpoint split_nl (s : str) : list str :=
  match s with
  | [] => [[]]
  | c :: s' =>
      if char_eqb c NL then [] :: split_nl s'
      else match split_nl s' with
           | l :: ls => (c :: l) :: ls
           | [] => [[c]]
           end
  end.

(** [sep.join(parts)] *)
Fixpoint join (sep : str) (parts : list str) : str :=
  match parts with
  | [] => []
  | [p] => p
  | p :: ps => p ++ sep ++ join sep ps
  end.

(** Comparison of strings: lexicographic on code points, which is the
    order [sorted] uses on a list of [str]. *)
Fixpoint str_leb (a b : str) : bool :=
  match a, b with
  | [], _ => true
  | _ :: _, [] => false
  | x :: a', y :: b' =>
      if (x <? y)%N then true
      else if (y <? x)%N then false
      else str_leb a' b'
  end.

(** [sorted(l)]: a stable sort; insertion from the right keeps equal
    elements in their order. *)
Fixpoint insert_sorted (x : str) (l : list str) : list str :=
  match l with
  | [] => [x]
  | y :: l' => if str_leb x y then x :: l else y :: insert_sorted x l'
  end.

Definition sorted (l : list str) : list str :=
  fold_right insert_sorted [] l.

(** [str(n)] for a non-negative [int], as in an f-string. *)
Fixpoint digits (u : Decimal.uint) : str :=
  match u with
  | Decimal.Nil => []
  | Decimal.D0 u => 48%N :: digits u
  | Decimal.D1 u => 49%N :: digits u
  | Decimal.D2 u => 50%N :: digits u
  | Decimal.D3 u => 51%N :: digits u
  | Decimal.D4 u => 52%N :: digits u
  | Decimal.D5 u => 53%N :: digits u
  | Decimal.D6 u => 54%N :: digits u
  | Decimal.D7 u => 55%N :: digits u
  | Decimal.D8 u => 56%N :: digits u
  | Decimal.D9 u => 57%N :: digits u
  end.

Definition str_of_nat (n : nat) : str := digits (Nat.to_uint n).

(** [enumerate(l)], counting from [i]. *)
Fixpoint enumerate_from {A : Type} (i : nat) (l : list A) : list (nat * A) :=
  match l with
  | [] => []
  | x :: l' => (i, x) :: enumerate_from (S i) l'
  end.

Definition enumerate {A : Type} (l : list A) : list (nat * A) :=
  enumerate_from 0 l.

End PyStr.

Import PyStr.

(** ** The fragment of [re] the program uses

    Every pattern of the source is a sequence of literals, an
    alternation of literals, and repetitions of one character class,
    some of them inside a capturing group.  The matcher is the
    backtracking matcher of [re]: each item tries its possible lengths
    in priority order (greedy: longest first; lazy: shortest first; an
    alternation: its branches left to right) and the first length for
    which the rest of the pattern matches is kept. *)

Module Re.

Inductive cls : Type :=
| Any      (* [.] under [re.DOTALL] *)
| Space    (* [\s] *)
| Word.    (* [\w] *)

Inductive atom : Type :=
| Lit (s : str)                  (* literal text *)
| Alt (branches : list str)      (* [a|b|c] of literals *)
| Greedy (lo : nat) (c : cls)    (* [c*] for [lo = 0], [c+] for [lo = 1] *)
| Lazy (c : cls).                (* [c*?] *)

(** An item is an atom and whether it is a capturing group. *)
Definition item : Type := (atom * bool)%type.
Definition pattern : Type := list item.

Definition plain (a : atom) : item := (a, false).
Definition group (a : atom) : item := (a, true).

Section Matcher.

(** [str.isalnum] on a code point above the ASCII range: the Unicode
    character database of the interpreter. *)
Variable unicode_alnum : char -> bool.

(** The class [\w] of a [str] pattern: alphanumeric or underscore. *)
Definition isword (c : char) : bool :=
  if (c <? 128)%N then
    ((48 <=? c) && (c <=? 57) || (65 <=? c) && (c <=? 90)
     || (97 <=? c) && (c <=? 122) || (c =? 95))%N
  else unicode_alnum c.

Definition in_cls (k : cls) (c : char) : bool :=
  match k with
  | Any => true
  | Space => isspace c
  | Word => isword c
  end.

(** Length of the longest prefix of [s] made of characters of [k]. *)
Fixpoint span (k : cls) (s : str) : nat :=
  match s with
  | c :: s' => if in_cls k c then S (span k s') else 0
  | [] => 0
  end.

(** The lengths an atom can consume at the head of [s], in the order
    the matcher tries them. *)
Definition candidates (a : atom) (s : str) : list nat :=
  match a with
  | Lit l => if startswith s l then [length l] else []
  | Alt ls => map (@length char) (filter (startswith s) ls)
  | Greedy lo k => rev (seq lo (S (span k s) - lo))
  | Lazy k => seq 0 (S (span k s))
  end.

Fixpoint first_some {A B : Type} (f : A -> option B) (l : list A) : option B :=
  match l with
  | [] => None
  | x :: l' => match f x with
               | Some r => Some r
               | None => first_some f l'
               end
  end.

(** Match [p] at the head of [s]: the captured groups, in order, and
    the text left after the match. *)
Fixpoint match_here (p : pattern) (s : str) : option (list str * str) :=
  match p with
  | [] => Some ([], s)
  | (a, g) :: p' =>
      first_some
        (fun n =>
           match match_here p' (skipn n s) with
           | Some (gs, rest) =>
               Some (if g then firstn n s :: gs else gs, rest)
           | None => None
           end)
        (candidates a s)
  end.

(** [re.search(p, s)]: the groups of the leftmost match. *)
Fixpoint search (p : pattern) (s : str) : option (list str) :=
  match match_here p s with
  | Some (gs, _) => Some gs
  | None => match s with
            | [] => None
            | _ :: s' => search p s'
            end
  end.

(** [m.group(n)] for [n >= 1]. *)
Definition group_of (n : nat) (gs : list str) : str := nth (n - 1) gs [].

(** [re.sub(p, '', s)]: the leftmost non-overlapping matches of [p] are
    deleted; [skip] counts the characters of the current match still to
    be dropped.  An empty match deletes nothing. *)
Fixpoint sub_delete (p : pattern) (skip : nat) (s : str) : str :=
  match s with
  | [] => []
  | c :: s' =>
      match skip with
      | S k => sub_delete p k s'
      | O =>
          match match_here p s with
          | Some (_, rest) =>
              match length s - length rest with
              | S k => sub_delete p k s'
              | O => c :: sub_delete p 0 s'
              end
          | None => c :: sub_delete p 0 s'
          end
      end
  end.

End Matcher.

End Re.

Import Re.

(** ** The file system

    One generation run sees a snapshot of the tree below the root
    directory.  A path denotes a node of that tree:
    - a regular file, readable as text or failing with a message
      (permission, decoding or I/O error: the [str(e)] of the exception);
    - a directory, listable or failing with a message;
    - anything else (a missing path, a socket, a dangling link). *)

#[warnings="-register-all"]
Inductive node : Type :=
| File (content : str)
| Unreadable (err : str)
| Dir (entries : list (str * node))
| Unlistable (err : str)
| Other.

(** [os.path.isdir], [os.path.isfile] *)
Definition isdir (n : node) : bool :=
  match n with
  | Dir _ | Unlistable _ => true
  | _ => false
  end.

Definition isfile (n : node) : bool :=
  match n with
  | File _ | Unreadable _ => true
  | _ => false
  end.

Fixpoint lookup (name : str) (entries : list (str * node)) : node :=
  match entries with
  | [] => Other
  | (n, c) :: es => if str_eqb n name then c else lookup name es
  end.

(** [os.path.join(root_path, item)]: the node the joined path denotes. *)
Definition path_join (root_path : node) (item : str) : node :=
  match root_path with
  | Dir entries => lookup item entries
  | _ => Other
  end.

(** Messages of the errors raised on a path of the wrong kind.  The
    interpreter appends the path, which the model does not carry: these
    constants stand for the message, and no property below states its
    text.  The walker only descends into directories, so they can only
    arise for the root of a walk. *)
Definition ENOTDIR : str := lit "[Errno 20] Not a directory".
Definition EISDIR : str := lit "[Errno 21] Is a directory".
Definition ENOENT : str := lit "[Errno 2] No such file or directory".

(** [os.listdir(root_path)]: the names, in the order the system gives
    them, or the message of the exception. *)
Definition listdir (root_path : node) : str + list str :=
  match root_path with
  | Dir entries => inr (map fst entries)
  | Unlistable e => inl e
  | File _ | Unreadable _ => inl ENOTDIR
  | Other => inl ENOENT
  end.

(** [open(filepath, 'r', encoding='utf-8').read()] *)
Definition read (filepath : node) : str + str :=
  match filepath with
  | File content => inr content
  | Unreadable e => inl e
  | Dir _ | Unlistable _ => inl EISDIR
  | Other => inl ENOENT
  end.

(** Depth of the tree below a node. *)
Fixpoint height (n : node) : nat :=
  match n with
  | Dir entries =>
      S (fold_right (fun e h => Nat.max (height (snd e)) h) 0 entries)
  | _ => 0
  end.

(** ** Literals of the program *)

Definition CONN_LAST : str := [0x2514; 0x2500; 0x2500; 0x20]%N.
  (* U+2514 U+2500 U+2500 SPACE: the last-child connector *)
Definition CONN_MID : str := [0x251C; 0x2500; 0x2500; 0x20]%N.
  (* U+251C U+2500 U+2500 SPACE: the mid-child connector *)
Definition ARROW : str := [0x20; 0x2190; 0x20]%N.
  (* SPACE U+2190 SPACE *)
Definition CONT_LAST : str := lit "    ".
Definition CONT_MID : str := [0x2502; 0x20; 0x20; 0x20]%N.
  (* U+2502 and three spaces *)
Definition READ_FAILED : str :=
  [0x28; 0x8BFB; 0x53D6; 0x5931; 0x8D25; 0x3A; 0x20]%N.
  (* "(" U+8BFB U+53D6 U+5931 U+8D25 ": " *)
Definition ERROR_OPEN : str := [0x5B; 0x9519; 0x8BEF; 0x3A; 0x20]%N.
  (* "[" U+9519 U+8BEF ": " *)
Definition TOTAL_OPEN : str :=
  [0x2A; 0x2A; 0x603B; 0x8BA1; 0x2A; 0x2A; 0x3A; 0x20]%N.
  (* "**" U+603B U+8BA1 "**: " *)
Definition TOTAL_CLOSE : str :=
  [0x20; 0x4E2A; 0x20; 0x43; 0x23; 0x20; 0x6587; 0x4EF6]%N.
  (* " " U+4E2A " C# " U+6587 U+4EF6 *)
Definition TITLE : str :=
  lit "# Framework" ++
  [0x6846; 0x67B6; 0x7C7B; 0x6587; 0x4EF6; 0x6811; 0x72B6; 0x7ED3; 0x6784]%N.
Definition SUBTITLE : str :=
  lit "> " ++
  [0x81EA; 0x52A8; 0x751F; 0x6210; 0x7684; 0x7C7B; 0x6587; 0x4EF6;
   0x4F4D; 0x7F6E; 0x4E0E; 0x529F; 0x80FD; 0x8BF4; 0x660E]%N.
Definition FENCE : str := lit "```".
Definition ROOT_LABEL : str :=
  lit "Assets/TradeGame/Scripts/Runtime/Framework/".

Definition EXT_CS : str := lit ".cs".
Definition EXT_META : str := lit ".meta".
Definition DOT_GIT : str := lit ".git".

(** The patterns of [extract_class_info]. *)

(** [/// <summary>\s*\n\s*/// (.*?)\s*\n\s*/// </summary>], [re.DOTALL] *)
Definition summary_re : pattern :=
  [ plain (Lit (lit "/// <summary>")); plain (Greedy 0 Space);
    plain (Lit [NL]); plain (Greedy 0 Space); plain (Lit (lit "/// "));
    group (Lazy Any);
    plain (Greedy 0 Space); plain (Lit [NL]); plain (Greedy 0 Space);
    plain (Lit (lit "/// </summary>")) ].

(** [///\s*] *)
Definition leader_re : pattern :=
  [ plain (Lit (lit "///")); plain (Greedy 0 Space) ].

Definition keywords : list str :=
  [ lit "class"; lit "interface"; lit "enum"; lit "struct" ].

(** [(class|interface|enum|struct)\s+(\w+)] *)
Definition bare_re : pattern :=
  [ group (Alt keywords); plain (Greedy 1 Space); group (Greedy 1 Word) ].

(** [public\s+(class|interface|enum|struct)\s+(\w+)] *)
Definition public_re : pattern :=
  plain (Lit (lit "public")) :: plain (Greedy 1 Space) :: bare_re.

(** Truth value of a [str]: non-empty. *)
Definition truthy (s : str) : bool :=
  match s with
  | [] => false
  | _ :: _ => true
  end.

Section TreeGen.

Variable unicode_alnum : char -> bool.

Local Abbreviation search := (Re.search unicode_alnum).
Local Abbreviation sub_delete := (Re.sub_delete unicode_alnum).

(** ** The Extractor *)

(** The summary of [extract_class_info]: lines 22-26. *)
Definition extract_summary (content : str) : str :=
  match search summary_re content with
  | Some gs =>
      let summary := strip (group_of 1 gs) in
      let summary := sub_delete leader_re 0 summary in
      firstn 100 (replace_char NL SP summary)
  | None => []
  end.

(** The loop of lines 29-40, with its variable [class_name]; either
    [break] leaves the loop with the name just assigned. *)
Fixpoint name_loop (class_name : str) (lines : list str) : str :=
  match lines with
  | [] => class_name
  | line :: rest =>
      match search public_re line with
      | Some gs => group_of 2 gs
      | None =>
          if negb (truthy class_name) then
            match search bare_re line with
            | Some gs => group_of 2 gs
            | None => name_loop class_name rest
            end
          else name_loop class_name rest
      end
  end.

(** [extract_class_info(filepath)]: the pair [(class_name, summary)]. *)
Definition extract_class_info (filepath : node) : str * str :=
  match read filepath with
  | inr content =>
      let lines := split_nl content in
      let summary := extract_summary content in
      let class_name := name_loop [] lines in
      (class_name, summary)
  | inl e => ([], READ_FAILED ++ e ++ lit ")")
  end.

(** ** The Tree Walker *)

(** Line 54: the entries that are kept. *)
Definition kept (item : str) : bool :=
  negb (endswith item EXT_META) && negb (str_eqb item DOT_GIT).

(** Lines 52-57: [items], [dirs] and [files] of a listing. *)
Definition items_of (names : list str) : list str :=
  filter kept (sorted names).

Definition dirs_of (root_path : node) (items : list str) : list str :=
  filter (fun item => isdir (path_join root_path item)) items.

Definition files_of (root_path : node) (items : list str) : list str :=
  filter (fun item => isfile (path_join root_path item)
                      && endswith item EXT_CS) items.

(** [i == len(l) - 1], on Python integers. *)
Definition is_final {A : Type} (i : nat) (l : list A) : bool :=
  (Z.of_nat i =? Z.of_nat (length l) - 1)%Z.

(** Lines 62 and 79: the connector of an entry. *)
Definition connector_of (is_last_entry : bool) : str :=
  if is_last_entry then CONN_LAST else CONN_MID.

(** Lines 61-72: the line of one file. *)
Definition file_line (root_path : node) (prefix : str)
    (files dirs : list str) (i : nat) (filename : str) : str :=
  let is_last_item := is_final i files && (length dirs =? 0) in
  let connector := connector_of is_last_item in
  let filepath := path_join root_path filename in
  let '(class_name, summary) := extract_class_info filepath in
  if truthy class_name && truthy summary then
    prefix ++ connector ++ filename ++ ARROW ++ class_name
    ++ lit " (" ++ summary ++ lit ")"
  else if truthy class_name then
    prefix ++ connector ++ filename ++ ARROW ++ class_name
  else
    prefix ++ connector ++ filename.

(** Lines 78-84: the line of one subdirectory and the prefix below it. *)
Definition dir_line (prefix : str) (dirs : list str) (i : nat)
    (dirname : str) : str :=
  let is_last_dir := is_final i dirs in
  let connector := connector_of is_last_dir in
  prefix ++ connector ++ dirname ++ lit "/".

Definition new_prefix (prefix : str) (dirs : list str) (i : nat) : str :=
  prefix ++ (if is_final i dirs then CONT_LAST else CONT_MID).

(** Line 91: the line of a listing that failed. *)
Definition error_line (prefix e : str) : str :=
  prefix ++ ERROR_OPEN ++ e ++ lit "]".

(** Lines 60-74: the loop over the files. *)
Definition scan_files (root_path : node) (prefix : str)
    (files dirs : list str) (output_lines : list str) : list str :=
  fold_left
    (fun out '(i, filename) =>
       out ++ [file_line root_path prefix files dirs i filename])
    (enumerate files) output_lines.

(** Lines 77-86: the loop over the subdirectories; [walk] is the
    recursive call. *)
Definition scan_dirs
    (walk : node -> str -> list str -> bool -> option (list str))
    (root_path : node) (prefix : str) (dirs : list str)
    (output_lines : list str) : option (list str) :=
  fold_left
    (fun acc '(i, dirname) =>
       match acc with
       | Some out =>
           let is_last_dir := is_final i dirs in
           let out := out ++ [dir_line prefix dirs i dirname] in
           let subdir_path := path_join root_path dirname in
           walk subdir_path (new_prefix prefix dirs i) out is_last_dir
       | None => None
       end)
    (enumerate dirs) (Some output_lines).

(** [scan_directory(root_path, prefix, output_lines, is_last)]: the
    output sequence after the call, which is also the value returned.
    Only [os.listdir] can raise inside the [try]: [isdir] and [isfile]
    answer [False] on an error, [extract_class_info] and the recursive
    call catch theirs.  [fuel] bounds the depth of the recursion;
    [None] is a walk cut short by it. *)
Fixpoint scan_directory (fuel : nat) (root_path : node) (prefix : str)
    (output_lines : list str) (is_last : bool) : option (list str) :=
  match fuel with
  | O => None
  | S fuel' =>
      match listdir root_path with
      | inr names =>
          let items := items_of names in
          let dirs := dirs_of root_path items in
          let files := files_of root_path items in
          let output_lines :=
            scan_files root_path prefix files dirs output_lines in
          scan_dirs (scan_directory fuel') root_path prefix dirs output_lines
      | inl e => Some (output_lines ++ [error_line prefix e])
      end
  end.

(** ** The document assembler *)

(** Line 113: the trailing count line. *)
Definition count_line (tree_lines : list str) : str :=
  TOTAL_OPEN
  ++ str_of_nat (length (filter (contains EXT_CS) tree_lines))
  ++ TOTAL_CLOSE.

(** Lines 98-113: the lines of the document. *)
Definition document_lines (tree_lines : list str) : list str :=
  [ TITLE; []; SUBTITLE; []; FENCE; ROOT_LABEL ]
  ++ tree_lines
  ++ [ FENCE; []; count_line tree_lines ].

(** [generate_markdown(root_path, output_file)]: the text written to
    the output file.  The progress messages printed on standard output
    are left out. *)
Definition generate_markdown (fuel : nat) (root_path : node) : option str :=
  match scan_directory fuel root_path [] [] true with
  | Some tree_lines => Some (join [NL] (document_lines tree_lines))
  | None => None
  end.

(** The tree lines of a walk that starts from an empty output sequence,
    with fuel for the whole depth of the tree. *)
Definition tree_of (root_path : node) (prefix : str) : list str :=
  match scan_directory (S (height root_path)) root_path prefix [] true with
  | Some tree_lines => tree_lines
  | None => []
  end.

(** The lines of the files of a listing, and the block of one
    subdirectory: its line and the tree below it. *)
Definition file_lines (root_path : node) (prefix : str)
    (files dirs : list str) : list str :=
  map (fun '(i, filename) => file_line root_path prefix files dirs i filename)
    (enumerate files).

Definition dir_block (root_path : node) (prefix : str) (dirs : list str)
    (e : nat * str) : list str :=
  let '(i, dirname) := e in
  dir_line prefix dirs i dirname
  :: tree_of (path_join root_path dirname) (new_prefix prefix dirs i).

End TreeGen.

(** ** Trees without the excluded entries *)

(** An entry the walker leaves out: a metadata sidecar or the
    version-control directory. *)
Definition excluded (item : str) : bool :=
  endswith item EXT_META || str_eqb item DOT_GIT.

(** The tree with every excluded entry removed, at every depth. *)
Fixpoint prune (n : node) : node :=
  match n with
  | Dir entries =>
      Dir (filter (fun e => negb (excluded (fst e)))
             (map (fun e => (fst e, prune (snd e))) entries))
  | _ => n
  end.

(** Two snapshots of a tree that differ only in the order in which the
    directories list their entries: the same names, and under each name
    snapshots that are again the same in this sense. *)
Inductive same_tree : node -> node -> Prop :=
| same_node (n : node) : same_tree n n
| same_dir (entries entries' : list (str * node)) :
    Permutation (map fst entries) (map fst entries') ->
    (forall name, same_tree (lookup name entries) (lookup name entries')) ->
    same_tree (Dir entries) (Dir entries').

(** The order of [sorted], as a relation. *)
Definition str_le (a b : str) : Prop := str_leb a b = true.

(** A character table that knows no alphanumeric outside ASCII. *)
Definition ascii_only : char -> bool := fun _ => false.

(** ** Summary blocks *)

(** Text with some content: a character that is neither white space
    nor a slash of a comment leader. *)
Definition has_text (s : str) : bool :=
  existsb (fun c => negb (isspace c) && negb (char_eqb c SLASH)) s.

(** A character with content, and a character that a match of the
    leader pattern [///\s*] can consume. *)
Definition solid (c : char) : Prop := isspace c = false /\ c <> SLASH.
Definition droppable (c : char) : Prop := c = SLASH \/ isspace c = true.

(** ** Example trees *)

(** A text given by its lines. *)
Definition text_of (lines : list str) : str := join [NL] lines.

(** A documentation block with one content line. *)
Definition summary_block (text : str) : str :=
  text_of [ lit "/// <summary>"; lit "/// " ++ text; lit "/// </summary>" ].

(** The fixture of the specification: [root/A.cs] declares [Foo] with
    summary "Does X", [root/sub/B.cs] declares nothing. *)
Definition A_cs : node :=
  File (text_of [ summary_block (lit "Does X"); lit "public class Foo { }" ]).

(** Two declarations, the public one on the later line. *)
Definition two_declarations : str :=
  text_of [ lit "class Foo"; lit "public class Bar" ].

(** A block without content followed by a block with content. *)
Definition two_blocks : str :=
  text_of [ summary_block []; summary_block (lit "Does X");
            lit "public class Foo" ].

Definition B_cs : node := File (lit "// nothing here").

Definition fixture_entries : list (str * node) :=
  [ (lit "sub", Dir [ (lit "B.cs", B_cs) ]);
    (lit "A.cs.meta", File []);
    (lit ".git", Dir [ (lit "hook.cs", File []) ]);
    (lit "A.cs", A_cs) ].

Definition fixture : node := Dir fixture_entries.

(** A directory whose only file cannot be read. *)
Definition unreadable_entries : list (str * node) :=
  [ (lit "A.cs", Unreadable (lit "[Errno 13] Permission denied")) ].

(** A directory with three subdirectories, the second of which cannot
    be listed. *)
Definition locked_entries : list (str * node) :=
  [ (lit "c", Dir [ (lit "C.cs", File []) ]);
    (lit "b", Unlistable (lit "[Errno 13] Permission denied"));
    (lit "a", Dir []) ].

(** The entries of the fixture as another listing order gives them. *)
Definition fixture_entries_reordered : list (str * node) :=
  [ (lit "A.cs", A_cs);
    (lit ".git", Dir [ (lit "hook.cs", File []) ]);
    (lit "sub", Dir [ (lit "B.cs", B_cs) ]);
    (lit "A.cs.meta", File []) ].

(** A directory whose only entry is a directory named like a source
    file. *)
Definition named_like_a_file : node := Dir [ (lit "old.cs", Dir []) ].

(** * Properties *)

(** ** Strings *)

Section StringFacts.

Lemma char_eqb_eq (a b : char) : char_eqb a b = true <-> a = b.
Proof. unfold char_eqb. apply N.eqb_eq. Qed.

Lemma str_eqb_eq (a b : str) : str_eqb a b = true <-> a = b.
Proof.
  revert b. induction a as [|x a IH]; intros [|y b]; simpl;
    try (split; [discriminate | congruence]); try tauto.
  rewrite andb_true_iff, char_eqb_eq, IH. split.
  - intros [-> ->]. reflexivity.
  - intros E. inversion E. auto.
Qed.

Lemma startswith_spec (s p : str) :
  startswith s p = true <-> exists r, s = p ++ r.
Proof.
  revert s. induction p as [|x p IH]; intros s; simpl.
  - split; [exists s; reflexivity | reflexivity].
  - destruct s as [|y s].
    + split; [discriminate | intros [r E]; discriminate].
    + rewrite andb_true_iff, char_eqb_eq, IH. split.
      * intros [-> [r ->]]. exists r. reflexivity.
      * intros [r E]. inversion E. subst. eauto.
Qed.

Lemma endswith_spec (s p : str) :
  endswith s p = true <-> exists r, s = r ++ p.
Proof.
  unfold endswith. rewrite startswith_spec. split.
  - intros [r E]. exists (rev r).
    rewrite <- (rev_involutive s), E, rev_app_distr, rev_involutive.
    reflexivity.
  - intros [r ->]. exists (rev r). apply rev_app_distr.
Qed.

Lemma contains_spec (sub s : str) :
  contains sub s = true <-> exists a b, s = a ++ sub ++ b.
Proof.
  induction s as [|c s IH].
  - simpl. rewrite orb_false_r, startswith_spec. split.
    + intros [r E]. exists [], r. exact E.
    + intros [a [b E]]. destruct a; [|discriminate]. eauto.
  - simpl. rewrite orb_true_iff, startswith_spec, IH. split.
    + intros [[r E] | [a [b E]]].
      * exists [], r. exact E.
      * exists (c :: a), b. rewrite E. reflexivity.
    + intros [a [b E]]. destruct a as [|x a].
      * left. exists b. exact E.
      * right. inversion E. eauto.
Qed.

(** The order of [sorted] is total and transitive. *)

Lemma str_leb_total (a b : str) : str_leb a b = false -> str_leb b a = true.
Proof.
  revert b. induction a as [|x a IH]; intros [|y b]; simpl; auto;
    try discriminate.
  destruct (N.ltb_spec x y), (N.ltb_spec y x); auto; try discriminate; lia.
Qed.

Lemma str_leb_trans (a b c : str) :
  str_leb a b = true -> str_leb b c = true -> str_leb a c = true.
Proof.
  revert b c. induction a as [|x a IH]; intros [|y b] [|z c]; simpl; auto;
    try discriminate.
  destruct (N.ltb_spec x y), (N.ltb_spec y x), (N.ltb_spec y z),
    (N.ltb_spec z y), (N.ltb_spec x z), (N.ltb_spec z x);
    auto; try discriminate; try lia.
  apply IH.
Qed.

Lemma str_leb_refl (a : str) : str_leb a a = true.
Proof.
  induction a as [|x a IH]; simpl; auto.
  rewrite N.ltb_irrefl. exact IH.
Qed.

Lemma str_leb_antisym (a b : str) :
  str_leb a b = true -> str_leb b a = true -> a = b.
Proof.
  revert b. induction a as [|x a IH]; intros [|y b]; simpl; auto;
    try discriminate.
  destruct (N.ltb_spec x y), (N.ltb_spec y x); try discriminate; try lia.
  intros H1 H2. f_equal; [lia | auto].
Qed.

(** [sorted] returns a sorted rearrangement of its argument. *)

Lemma insert_sorted_In (x y : str) (l : list str) :
  In y (insert_sorted x l) <-> y = x \/ In y l.
Proof.
  induction l as [|z l IH]; simpl.
  - intuition.
  - destruct (str_leb x z); simpl; rewrite ?IH; intuition.
Qed.

Lemma sorted_In (y : str) (l : list str) : In y (sorted l) <-> In y l.
Proof.
  induction l as [|x l IH]; simpl; [tauto|].
  rewrite insert_sorted_In, IH. intuition.
Qed.

Lemma insert_sorted_StronglySorted (x : str) (l : list str) :
  StronglySorted str_le l -> StronglySorted str_le (insert_sorted x l).
Proof.
  induction 1 as [|z l Hl IH Hz]; simpl.
  - repeat constructor.
  - destruct (str_leb x z) eqn:E.
    + constructor; [constructor; assumption|].
      constructor; [exact E|].
      rewrite Forall_forall in *. intros w Hw.
      eapply str_leb_trans; [exact E | apply Hz, Hw].
    + constructor; [exact IH|].
      rewrite Forall_forall in *. intros w Hw.
      apply insert_sorted_In in Hw. destruct Hw as [->|Hw]; auto.
      apply str_leb_total, E.
Qed.

Lemma sorted_StronglySorted (l : list str) : StronglySorted str_le (sorted l).
Proof.
  induction l; simpl; [constructor | apply insert_sorted_StronglySorted; auto].
Qed.

Lemma filter_StronglySorted (f : str -> bool) (l : list str) :
  StronglySorted str_le l -> StronglySorted str_le (filter f l).
Proof.
  induction 1 as [|z l Hl IH Hz]; simpl; [constructor|].
  destruct (f z); [|exact IH].
  constructor; [exact IH|].
  rewrite Forall_forall in *. intros w Hw.
  apply filter_In in Hw. apply Hz, Hw.
Qed.

Lemma filter_insert_sorted_out (f : str -> bool) (x : str) (l : list str) :
  f x = false -> filter f (insert_sorted x l) = filter f l.
Proof.
  intros Hx. induction l as [|z l IH]; simpl.
  - rewrite Hx. reflexivity.
  - destruct (str_leb x z); simpl; rewrite ?Hx, ?IH; reflexivity.
Qed.

Lemma filter_insert_sorted_in (f : str -> bool) (x : str) (l : list str) :
  StronglySorted str_le l -> f x = true ->
  filter f (insert_sorted x l) = insert_sorted x (filter f l).
Proof.
  intros Hl Hx. induction Hl as [|z l Hl IH Hz]; simpl.
  - rewrite Hx. reflexivity.
  - destruct (str_leb x z) eqn:E; simpl.
    + rewrite Hx. destruct (f z); simpl.
      * rewrite E. reflexivity.
      * destruct (filter f l) as [|w l'] eqn:F; [reflexivity|].
        simpl. assert (Hw : str_leb x w = true).
        { eapply str_leb_trans; [exact E|].
          rewrite Forall_forall in Hz. apply Hz.
          assert (In w (filter f l)) by (rewrite F; left; reflexivity).
          apply filter_In in H. tauto. }
        rewrite Hw. reflexivity.
    + destruct (f z); simpl; rewrite IH, ?E; reflexivity.
Qed.

Lemma filter_sorted (f : str -> bool) (l : list str) :
  filter f (sorted l) = sorted (filter f l).
Proof.
  induction l as [|x l IH]; simpl; [reflexivity|].
  destruct (f x) eqn:Hx; simpl.
  - rewrite filter_insert_sorted_in, IH;
      auto using sorted_StronglySorted.
  - rewrite filter_insert_sorted_out, IH; auto.
Qed.

End StringFacts.

(** ** The matcher *)

Section MatcherFacts.

Variable unicode_alnum : char -> bool.

Local Abbreviation match_here := (Re.match_here unicode_alnum).
Local Abbreviation search := (Re.search unicode_alnum).
Local Abbreviation candidates := (Re.candidates unicode_alnum).
Local Abbreviation span := (Re.span unicode_alnum).
Local Abbreviation in_cls := (Re.in_cls unicode_alnum).

Lemma first_some_Some {A B : Type} (f : A -> option B) (l : list A) (r : B) :
  first_some f l = Some r -> exists x, In x l /\ f x = Some r.
Proof.
  induction l as [|x l IH]; simpl; [discriminate|].
  destruct (f x) eqn:E.
  - intros [= <-]. eauto.
  - intros H. destruct (IH H) as [y [Hy Hf]]. eauto.
Qed.

(** A match of a pattern is a length for its first item followed by a
    match of the remaining items. *)
Lemma match_here_cons (a : atom) (g : bool) (p : pattern) (s : str)
    (gs : list str) (rest : str) :
  match_here ((a, g) :: p) s = Some (gs, rest) ->
  exists n gs', In n (candidates a s)
    /\ match_here p (skipn n s) = Some (gs', rest)
    /\ gs = if g then firstn n s :: gs' else gs'.
Proof.
  simpl. intros H. apply first_some_Some in H. destruct H as [n [Hn H]].
  destruct (Re.match_here unicode_alnum p (skipn n s)) as [[gs' rest']|] eqn:E;
    [|discriminate].
  injection H as <- <-. eauto.
Qed.

Lemma span_le_length (k : cls) (s : str) : span k s <= length s.
Proof.
  induction s as [|c s IH]; simpl; [lia|].
  destruct (Re.in_cls unicode_alnum k c); simpl; lia.
Qed.

Lemma span_firstn (k : cls) (s : str) (n : nat) :
  n <= span k s -> Forall (fun c => in_cls k c = true) (firstn n s).
Proof.
  revert n. induction s as [|c s IH]; intros n; simpl.
  - intros H. replace n with 0 by lia. constructor.
  - destruct (Re.in_cls unicode_alnum k c) eqn:E.
    + destruct n as [|n]; simpl; [constructor|].
      intros H. constructor; [exact E | apply IH; lia].
    + intros H. replace n with 0 by lia. constructor.
Qed.

Lemma candidates_greedy (lo : nat) (k : cls) (s : str) (n : nat) :
  In n (candidates (Greedy lo k) s) -> lo <= n <= span k s.
Proof.
  unfold Re.candidates. rewrite <- in_rev, in_seq. lia.
Qed.

Lemma candidates_lit (l s : str) (n : nat) :
  In n (candidates (Lit l) s) -> n = length l /\ exists r, s = l ++ r.
Proof.
  simpl. destruct (startswith s l) eqn:E; simpl; [|tauto].
  intros [<-|[]]. split; [reflexivity|]. apply startswith_spec, E.
Qed.

(** [search] succeeds exactly when the pattern matches at some
    position. *)
Lemma search_Some_inv (p : pattern) (s : str) (gs : list str) :
  search p s = Some gs ->
  exists k rest, match_here p (skipn k s) = Some (gs, rest).
Proof.
  induction s as [|c s IH]; simpl.
  - destruct (Re.match_here unicode_alnum p []) as [[gs' rest]|] eqn:E;
      [|discriminate].
    intros [= <-]. exists 0, rest. exact E.
  - destruct (Re.match_here unicode_alnum p (c :: s)) as [[gs' rest]|] eqn:E.
    + intros [= <-]. exists 0, rest. exact E.
    + intros H. destruct (IH H) as [k [rest Hk]]. exists (S k), rest. exact Hk.
Qed.

Lemma search_of_match_here (p : pattern) (s : str) (k : nat) :
  match_here p (skipn k s) <> None -> search p s <> None.
Proof.
  revert k. induction s as [|c s IH]; intros k H; simpl.
  - rewrite skipn_nil in H.
    destruct (Re.match_here unicode_alnum p []) as [[gs rest]|];
      [discriminate | congruence].
  - destruct (Re.match_here unicode_alnum p (c :: s)) as [[gs rest]|] eqn:E;
      [discriminate|].
    destruct k as [|k]; simpl in H; [congruence|]. eapply IH, H.
Qed.

(** A pattern matches wherever a longer pattern that ends with it
    matches. *)
Lemma search_tail (it : item) (p : pattern) (s : str) :
  search (it :: p) s <> None -> search p s <> None.
Proof.
  destruct (Re.search unicode_alnum (it :: p) s) as [gs|] eqn:E;
    [intros _|congruence].
  apply search_Some_inv in E. destruct E as [k [rest E]].
  destruct it as [a g]. apply match_here_cons in E.
  destruct E as [n [gs' [_ [E _]]]].
  rewrite skipn_skipn in E. apply search_of_match_here with (k := n + k).
  rewrite E. discriminate.
Qed.

(** A line with a public declaration has a declaration. *)
Lemma public_implies_bare (line : str) :
  search public_re line <> None -> search bare_re line <> None.
Proof.
  unfold public_re. intros H. do 2 apply search_tail in H. exact H.
Qed.

Lemma bare_none_public_none (line : str) :
  search bare_re line = None -> search public_re line = None.
Proof.
  intros H. destruct (Re.search unicode_alnum public_re line) eqn:E;
    [|reflexivity].
  exfalso. apply (@public_implies_bare line); congruence.
Qed.

(** The identifier of a declaration is never empty. *)
Lemma bare_match_identifier (s : str) (gs : list str) (rest : str) :
  match_here bare_re s = Some (gs, rest) -> group_of 2 gs <> [].
Proof.
  unfold bare_re, group, plain. intros H.
  apply match_here_cons in H. destruct H as [n1 [gs1 [_ [H ->]]]].
  apply match_here_cons in H. destruct H as [n2 [gs2 [_ [H ->]]]].
  apply match_here_cons in H. destruct H as [n3 [gs3 [Hn [H ->]]]].
  apply candidates_greedy in Hn.
  pose proof (span_le_length Word (skipn n2 (skipn n1 s))) as Hl.
  unfold group_of. simpl.
  destruct (skipn n2 (skipn n1 s)) as [|c t]; simpl in *; [lia|].
  destruct n3; [lia | discriminate].
Qed.

Lemma bare_search_identifier (line : str) (gs : list str) :
  search bare_re line = Some gs -> group_of 2 gs <> [].
Proof.
  intros H. apply search_Some_inv in H. destruct H as [k [rest H]].
  eapply bare_match_identifier, H.
Qed.

Lemma public_search_identifier (line : str) (gs : list str) :
  search public_re line = Some gs -> group_of 2 gs <> [].
Proof.
  intros H. apply search_Some_inv in H. destruct H as [k [rest H]].
  unfold public_re, plain in H.
  apply match_here_cons in H. destruct H as [n1 [gs1 [_ [H ->]]]].
  apply match_here_cons in H. destruct H as [n2 [gs2 [_ [H ->]]]].
  eapply bare_match_identifier, H.
Qed.

(** Forward steps of the matcher. *)

Lemma search_here (p : pattern) (s : str) (gs : list str) (rest : str) :
  match_here p s = Some (gs, rest) -> search p s = Some gs.
Proof. intros H. destruct s; simpl; rewrite H; reflexivity. Qed.

Lemma match_here_lit (l : str) (p : pattern) (r : str) :
  match_here (plain (Lit l) :: p) (l ++ r) = match_here p r.
Proof.
  unfold plain. cbn [Re.match_here Re.candidates].
  assert (E : startswith (l ++ r) l = true) by (apply startswith_spec; eauto).
  rewrite E. cbn [first_some].
  replace (skipn (length l) (l ++ r)) with r
    by (rewrite skipn_app, skipn_all, Nat.sub_diag; reflexivity).
  destruct (Re.match_here unicode_alnum p r) as [[gs rest]|]; reflexivity.
Qed.

Lemma match_here_lit_fail (l : str) (p : pattern) (s : str) :
  startswith s l = false -> match_here (plain (Lit l) :: p) s = None.
Proof.
  intros E. unfold plain. cbn [Re.match_here Re.candidates].
  rewrite E. reflexivity.
Qed.

Lemma match_here_greedy_stop (k : cls) (p : pattern) (c : char) (s : str) :
  in_cls k c = false ->
  match_here (plain (Greedy 0 k) :: p) (c :: s) = match_here p (c :: s).
Proof.
  intros E. unfold plain. cbn [Re.match_here Re.candidates Re.span].
  rewrite E. cbn.
  destruct (Re.match_here unicode_alnum p (c :: s)) as [[gs rest]|];
    reflexivity.
Qed.

(** [\s*\n] before a line that does not start with white space. *)
Lemma match_here_ws_nl (p : pattern) (c : char) (s : str) :
  isspace c = false ->
  match_here (plain (Greedy 0 Space) :: plain (Lit [NL]) :: p) (NL :: c :: s)
  = match_here p (c :: s).
Proof.
  intros E.
  assert (Hc : char_eqb NL c = false).
  { destruct (char_eqb NL c) eqn:F; [|reflexivity].
    apply char_eqb_eq in F. subst. discriminate. }
  unfold plain.
  cbn [Re.match_here Re.candidates Re.span Re.in_cls].
  change (isspace NL) with true. cbv iota. rewrite E.
  cbn [Nat.sub seq rev app first_some skipn length startswith].
  rewrite Hc. cbn [andb first_some].
  change (char_eqb NL NL) with true. cbn [andb first_some skipn].
  destruct (Re.match_here unicode_alnum p (c :: s)) as [[gs rest]|];
    reflexivity.
Qed.

Lemma span_Any (s : str) : span Any s = length s.
Proof. induction s; simpl; auto. Qed.

Lemma match_here_lazy_any (p : pattern) (s : str) :
  match_here (group (Lazy Any) :: p) s
  = first_some
      (fun n =>
         match match_here p (skipn n s) with
         | Some (gs, rest) => Some (firstn n s :: gs, rest)
         | None => None
         end)
      (seq 0 (S (length s))).
Proof. unfold group. rewrite <- span_Any. reflexivity. Qed.

Lemma first_some_seq (A : Type) (f : nat -> option A) (N a n1 : nat) (r1 : A) :
  a <= n1 < a + N -> f n1 = Some r1 ->
  exists n0 r0, a <= n0 <= n1 /\ f n0 = Some r0
                /\ first_some f (seq a N) = Some r0.
Proof.
  revert a. induction N as [|N IH]; intros a Hn Hf; [lia|].
  simpl. destruct (f a) as [r|] eqn:E.
  - exists a, r. repeat split; [lia | lia | exact E].
  - assert (a <> n1) by congruence.
    destruct (IH (S a)) as [n0 [r0 [Hn0 [Hf0 Hs]]]]; [lia | exact Hf |].
    exists n0, r0. repeat split; [lia | lia | exact Hf0 | exact Hs].
Qed.

Lemma span_app_stop (k : cls) (u : str) (c : char) (v : str) :
  in_cls k c = false -> span k (u ++ c :: v) <= length u.
Proof.
  intros E. induction u as [|x u IH]; simpl.
  - rewrite E. lia.
  - destruct (Re.in_cls unicode_alnum k x); lia.
Qed.

End MatcherFacts.

(** ** The Extractor *)

Section ExtractorFacts.

Variable unicode_alnum : char -> bool.

Local Abbreviation match_here := (Re.match_here unicode_alnum).
Local Abbreviation search := (Re.search unicode_alnum).
Local Abbreviation sub_delete := (Re.sub_delete unicode_alnum).
Local Abbreviation name_search := (name_loop unicode_alnum).
Local Abbreviation summary_of := (extract_summary unicode_alnum).

(** Lines without a declaration are passed over by the name search. *)
Lemma name_loop_skip (pre rest : list str) :
  (forall x, In x pre -> search bare_re x = None) ->
  name_search [] (pre ++ rest) = name_search [] rest.
Proof.
  induction pre as [|x pre IH]; intros H; [reflexivity|].
  assert (Hx : search bare_re x = None) by (apply H; left; reflexivity).
  simpl. rewrite (bare_none_public_none unicode_alnum x Hx), Hx. simpl.
  apply IH. intros y Hy. apply H. right. exact Hy.
Qed.

Lemma name_loop_none (lines : list str) :
  (forall x, In x lines -> search bare_re x = None) ->
  name_search [] lines = [].
Proof.
  intros H. rewrite <- (app_nil_r lines). rewrite name_loop_skip; auto.
Qed.

Lemma name_loop_nonempty (lines : list str) :
  (exists line, In line lines /\ search public_re line <> None) ->
  name_search [] lines <> [].
Proof.
  induction lines as [|x lines IH]; intros [line [Hin Hpub]]; [destruct Hin|].
  simpl. destruct (Re.search unicode_alnum public_re x) as [gs|] eqn:E.
  - eapply public_search_identifier, E.
  - destruct (Re.search unicode_alnum bare_re x) as [gs|] eqn:B.
    + eapply bare_search_identifier, B.
    + apply IH. exists line. split; [|exact Hpub].
      destruct Hin as [->|Hin]; [congruence | exact Hin].
Qed.

(** What [strip], the removal of the comment leaders and the
    replacement of newlines leave in place. *)

Lemma has_text_solid (s : str) :
  has_text s = true -> exists c, In c s /\ solid c.
Proof.
  unfold has_text. rewrite existsb_exists. intros [c [Hin Hc]].
  apply andb_true_iff in Hc. destruct Hc as [Hs Hc].
  exists c. split; [exact Hin|]. split.
  - destruct (isspace c); [discriminate | reflexivity].
  - intros ->. discriminate.
Qed.

Lemma lstrip_keeps (c : char) (s : str) :
  isspace c = false -> In c s -> In c (lstrip s).
Proof.
  intros Hc. induction s as [|x s IH]; simpl; [tauto|].
  destruct (isspace x) eqn:E; [|intros H; exact H].
  intros [->|H]; [congruence | auto].
Qed.

Lemma strip_keeps (c : char) (s : str) :
  isspace c = false -> In c s -> In c (strip s).
Proof.
  intros Hc H. unfold strip, rstrip.
  apply in_rev. rewrite rev_involutive.
  apply lstrip_keeps; [exact Hc|]. apply -> in_rev.
  apply lstrip_keeps; assumption.
Qed.

Lemma leader_match (s : str) (gs : list str) (rest : str) :
  match_here leader_re s = Some (gs, rest) ->
  exists n, rest = skipn n s /\ n <= length s
    /\ Forall droppable (firstn n s).
Proof.
  unfold leader_re, plain. intros H.
  apply match_here_cons in H. destruct H as [n1 [gs1 [H1 [H _]]]].
  apply match_here_cons in H. destruct H as [n2 [gs2 [H2 [H _]]]].
  simpl in H. injection H as _ <-.
  apply candidates_lit in H1. destruct H1 as [-> [r ->]].
  apply candidates_greedy in H2.
  change (skipn (length (lit "///")) (lit "///" ++ r)) with r in *.
  pose proof (span_le_length unicode_alnum Space r) as Hl.
  exists (3 + n2). split; [reflexivity|]. split; [simpl; lia|].
  change (firstn (3 + n2) (lit "///" ++ r)) with (lit "///" ++ firstn n2 r).
  apply Forall_app. split.
  - repeat constructor.
  - eapply Forall_impl; [|apply (span_firstn unicode_alnum Space r); lia].
    intros c Hc. right. exact Hc.
Qed.

Lemma sub_delete_cons (p : pattern) (skip : nat) (c : char) (s : str) :
  sub_delete p skip (c :: s) =
  match skip with
  | S k => sub_delete p k s
  | O =>
      match match_here p (c :: s) with
      | Some (_, rest) =>
          match length (c :: s) - length rest with
          | S k => sub_delete p k s
          | O => c :: sub_delete p 0 s
          end
      | None => c :: sub_delete p 0 s
      end
  end.
Proof. reflexivity. Qed.

Lemma sub_delete_keeps (c : char) (s : str) (skip : nat) :
  solid c -> Forall droppable (firstn skip s) -> In c s ->
  In c (sub_delete leader_re skip s).
Proof.
  intros [Hs Hc]. assert (Hd : ~ droppable c) by (intros [?|?]; congruence).
  revert skip. induction s as [|x s IH]; intros skip Hskip Hin; [destruct Hin|].
  assert (Keep : In c (x :: sub_delete leader_re 0 s)).
  { destruct Hin as [->|Hin]; [left; reflexivity|].
    right. apply IH; [constructor | exact Hin]. }
  assert (Drop : forall k, Forall droppable (firstn (S k) (x :: s)) ->
                 In c (sub_delete leader_re k s)).
  { intros k Hk. simpl in Hk. inversion Hk as [|? ? Hx Hk']. subst.
    apply IH; [exact Hk'|].
    destruct Hin as [->|Hin]; [contradiction | exact Hin]. }
  rewrite sub_delete_cons. destruct skip as [|k]; [|apply Drop, Hskip].
  destruct (Re.match_here unicode_alnum leader_re (x :: s))
    as [[gs rest]|] eqn:E; [|exact Keep].
  apply leader_match in E. destruct E as [n [-> [Hn Hall]]].
  rewrite length_skipn.
  destruct (length (x :: s) - (length (x :: s) - n)) as [|k] eqn:L;
    [exact Keep|].
  apply Drop. replace (S k) with n by lia. exact Hall.
Qed.

Lemma firstn_In_inv {A : Type} (x : A) (n : nat) (l : list A) :
  In x (firstn n l) -> In x l.
Proof.
  revert n. induction l as [|y l IH]; intros [|n]; simpl; try tauto.
  intros [->|H]; eauto.
Qed.

Lemma replace_nl_no_nl (s : str) : ~ In NL (replace_char NL SP s).
Proof.
  unfold replace_char. rewrite in_map_iff. intros [c [Hc _]].
  destruct (char_eqb c NL) eqn:E; [discriminate|].
  apply char_eqb_eq in Hc. congruence.
Qed.

Lemma replace_nl_keeps (c : char) (s : str) :
  isspace c = false -> In c s -> In c (replace_char NL SP s).
Proof.
  intros Hc H. unfold replace_char. apply in_map_iff. exists c.
  split; [|exact H].
  destruct (char_eqb c NL) eqn:E; [|reflexivity].
  apply char_eqb_eq in E. subst. discriminate.
Qed.

(** The summary is short and has no newline, whatever the file. *)
Lemma extract_summary_bounds (content : str) :
  length (summary_of content) <= 100
  /\ ~ In NL (summary_of content).
Proof.
  unfold extract_summary.
  destruct (Re.search unicode_alnum summary_re content) as [gs|].
  - split; [apply firstn_le_length|].
    intros H. apply firstn_In_inv in H. eapply replace_nl_no_nl, H.
  - simpl. split; [lia | tauto].
Qed.

Lemma extract_summary_nonempty (content : str) (gs : list str) :
  search summary_re content = Some gs ->
  has_text (group_of 1 gs) = true ->
  summary_of content <> [].
Proof.
  intros Hm Ht. unfold extract_summary. rewrite Hm.
  apply has_text_solid in Ht. destruct Ht as [c [Hin Hc]].
  assert (H : In c (replace_char NL SP
                      (sub_delete leader_re 0 (strip (group_of 1 gs))))).
  { apply replace_nl_keeps; [apply Hc|].
    apply sub_delete_keeps; [exact Hc | constructor |].
    apply strip_keeps; [apply Hc | exact Hin]. }
  destruct (replace_char NL SP _); [destruct H | discriminate].
Qed.

(** The first documentation block of a file.  When the text before the
    block has no slash and the content line of the block has no newline
    and some content, the summary pattern matches at the block and
    captures the content line without its trailing white space. *)

Lemma skipn_In_inv {A : Type} (x : A) (n : nat) (l : list A) :
  In x (skipn n l) -> In x l.
Proof.
  revert n. induction l as [|y l IH]; intros [|n]; simpl; try tauto.
  intros H. right. eapply IH, H.
Qed.

Lemma search_cons_fail (p : pattern) (c : char) (s : str) :
  match_here p (c :: s) = None -> search p (c :: s) = search p s.
Proof. intros H. simpl. rewrite H. reflexivity. Qed.

Lemma solid_has_text (c : char) (s : str) :
  solid c -> In c s -> has_text s = true.
Proof.
  intros [Hs Hc] Hin. unfold has_text. apply existsb_exists.
  exists c. split; [exact Hin|]. rewrite Hs. simpl.
  destruct (char_eqb c SLASH) eqn:E; [|reflexivity].
  apply char_eqb_eq in E. contradiction.
Qed.

Lemma summary_block_app (text post : str) :
  summary_block text ++ post
  = lit "/// <summary>"
    ++ NL :: lit "/// " ++ text ++ NL :: lit "/// </summary>" ++ post.
Proof.
  unfold summary_block, text_of. cbn [join].
  rewrite <- !app_assoc. reflexivity.
Qed.

Lemma close_match (post : str) :
  match_here
    [ plain (Greedy 0 Space); plain (Lit [NL]); plain (Greedy 0 Space);
      plain (Lit (lit "/// </summary>")) ]
    (NL :: lit "/// </summary>" ++ post)
  = Some ([], post).
Proof.
  change (lit "/// </summary>" ++ post)
    with (SLASH :: lit "// </summary>" ++ post).
  rewrite match_here_ws_nl by reflexivity.
  rewrite match_here_greedy_stop by reflexivity.
  change (SLASH :: lit "// </summary>" ++ post)
    with (lit "/// </summary>" ++ post).
  rewrite match_here_lit. reflexivity.
Qed.

Lemma close_match_inv (s : str) (gs : list str) (rest : str) :
  match_here
    [ plain (Greedy 0 Space); plain (Lit [NL]); plain (Greedy 0 Space);
      plain (Lit (lit "/// </summary>")) ] s
  = Some (gs, rest) ->
  gs = []
  /\ exists m r, m <= Re.span unicode_alnum Space s /\ skipn m s = NL :: r.
Proof.
  unfold plain. intros H.
  apply match_here_cons in H. destruct H as [m [gs1 [Hm [H ->]]]].
  apply match_here_cons in H. destruct H as [n2 [gs2 [H2 [H ->]]]].
  apply match_here_cons in H. destruct H as [n3 [gs3 [_ [H ->]]]].
  apply match_here_cons in H. destruct H as [n4 [gs4 [_ [H ->]]]].
  simpl in H. injection H as <- _.
  split; [reflexivity|].
  apply candidates_greedy in Hm. apply candidates_lit in H2.
  destruct H2 as [_ [r Hr]]. exists m, r. split; [lia | exact Hr].
Qed.

Lemma block_match (text post : str) :
  ~ In NL text -> has_text text = true ->
  exists g rest,
    match_here summary_re (summary_block text ++ post) = Some ([g], rest)
    /\ has_text g = true.
Proof.
  intros Hnl Ht. rewrite summary_block_app.
  set (R := text ++ NL :: lit "/// </summary>" ++ post).
  unfold summary_re.
  set (tailp := [ plain (Greedy 0 Space); plain (Lit [NL]);
                  plain (Greedy 0 Space);
                  plain (Lit (lit "/// </summary>")) ]).
  rewrite match_here_lit.
  change (lit "/// " ++ R) with (SLASH :: lit "// " ++ R).
  rewrite match_here_ws_nl by reflexivity.
  rewrite match_here_greedy_stop by reflexivity.
  change (SLASH :: lit "// " ++ R) with (lit "/// " ++ R).
  rewrite match_here_lit, match_here_lazy_any.
  set (F := fun n : nat => _).
  assert (H1 : F (length text) = Some ([firstn (length text) R], post)).
  { unfold F, R. rewrite skipn_app, skipn_all, Nat.sub_diag.
    cbn [skipn app]. unfold tailp. rewrite close_match. reflexivity. }
  assert (Hrange : 0 <= length text < 0 + S (length R))
    by (unfold R; rewrite length_app; simpl; lia).
  destruct (first_some_seq F (S (length R)) Hrange H1)
    as [n0 [r0 [Hn0 [Hf0 Hs]]]].
  rewrite Hs. unfold F in Hf0.
  destruct (Re.match_here unicode_alnum tailp (skipn n0 R))
    as [[gs rest]|] eqn:E; [|discriminate].
  injection Hf0 as <-.
  apply close_match_inv in E. destruct E as [-> [m [r [Hm Hr]]]].
  exists (firstn n0 R), rest. split; [reflexivity|].
  apply has_text_solid in Ht. destruct Ht as [c [Hin Hc]].
  apply solid_has_text with (c := c); [exact Hc|].
  apply in_split in Hin. destruct Hin as [t1 [t2 Htext]].
  assert (HR : R = t1 ++ c :: (t2 ++ NL :: lit "/// </summary>" ++ post)).
  { unfold R. rewrite Htext, <- app_assoc. reflexivity. }
  destruct (Nat.le_gt_cases n0 (length t1)) as [Hle|Hgt].
  - exfalso. rewrite HR in Hm, Hr.
    rewrite skipn_app in Hm, Hr.
    replace (n0 - length t1) with 0 in Hm, Hr by lia. cbn [skipn] in Hm, Hr.
    pose proof (span_app_stop unicode_alnum Space (skipn n0 t1) c
                  (t2 ++ NL :: lit "/// </summary>" ++ post)
                  (proj1 Hc)) as Hspan.
    rewrite skipn_app in Hr.
    replace (m - length (skipn n0 t1)) with 0 in Hr by lia.
    cbn [skipn] in Hr.
    destruct (skipn m (skipn n0 t1)) as [|x u] eqn:Eu.
    + injection Hr as -> _. destruct Hc as [Hc _]. discriminate Hc.
    + injection Hr as -> _. apply Hnl. rewrite Htext.
      apply in_or_app. left.
      apply (@skipn_In_inv _ NL n0), (@skipn_In_inv _ NL m).
      rewrite Eu. left. reflexivity.
  - rewrite HR, firstn_app. apply in_or_app. right.
    destruct (n0 - length t1) as [|k] eqn:Ek; [lia|].
    left. reflexivity.
Qed.

Lemma search_leading_block (pre text post : str) :
  Forall (fun c => c <> SLASH) pre ->
  ~ In NL text -> has_text text = true ->
  exists g,
    search summary_re (pre ++ summary_block text ++ post) = Some [g]
    /\ has_text g = true.
Proof.
  intros Hpre Hnl Ht. induction Hpre as [|c pre Hc Hpre IH].
  - destruct (@block_match text post Hnl Ht) as [g [rest [E Hg]]].
    exists g. split; [|exact Hg]. eapply search_here, E.
  - cbn [app]. rewrite search_cons_fail; [exact IH|].
    unfold summary_re. apply match_here_lit_fail.
    change (lit "/// <summary>") with (SLASH :: lit "// <summary>").
    cbn [startswith].
    destruct (char_eqb SLASH c) eqn:E; [|reflexivity].
    apply char_eqb_eq in E. congruence.
Qed.

(** A file whose first documentation block is of that form has a
    non-empty summary. *)
Lemma summary_of_leading_block (pre text post : str) :
  Forall (fun c => c <> SLASH) pre ->
  ~ In NL text -> has_text text = true ->
  summary_of (pre ++ summary_block text ++ post) <> [].
Proof.
  intros Hpre Hnl Ht.
  destruct (@search_leading_block pre text post Hpre Hnl Ht) as [g [E Hg]].
  eapply extract_summary_nonempty; [exact E | exact Hg].
Qed.

End ExtractorFacts.

(** ** The Tree Walker *)

Section WalkerFacts.

Variable unicode_alnum : char -> bool.

Local Abbreviation scan := (scan_directory unicode_alnum).
Local Abbreviation tree := (tree_of unicode_alnum).
Local Abbreviation extract := (extract_class_info unicode_alnum).
Local Abbreviation line_of := (file_line unicode_alnum).
Local Abbreviation lines_of := (file_lines unicode_alnum).
Local Abbreviation block_of := (dir_block unicode_alnum).

Lemma is_final_spec {A : Type} (i : nat) (l : list A) :
  is_final i l = Nat.eqb (S i) (length l).
Proof.
  unfold is_final.
  destruct (Z.eqb_spec (Z.of_nat i) (Z.of_nat (length l) - 1)),
    (Nat.eqb_spec (S i) (length l)); auto; lia.
Qed.

Lemma nth_error_enumerate_from {A : Type} (k i : nat) (l : list A) :
  nth_error (enumerate_from k l) i
  = option_map (fun x => (k + i, x)) (nth_error l i).
Proof.
  revert k i. induction l as [|x l IH]; intros k [|i]; simpl; auto.
  - rewrite Nat.add_0_r. reflexivity.
  - rewrite IH. replace (S k + i) with (k + S i) by lia. reflexivity.
Qed.

Lemma length_enumerate_from {A : Type} (k : nat) (l : list A) :
  length (enumerate_from k l) = length l.
Proof. revert k. induction l; intros k; simpl; auto. Qed.

Lemma In_enumerate_from {A : Type} (k i : nat) (x : A) (l : list A) :
  In (i, x) (enumerate_from k l) -> In x l.
Proof.
  revert k. induction l as [|y l IH]; intros k; simpl; [tauto|].
  intros [[= _ ->]|H]; eauto.
Qed.

(** The loop over the files appends one line per file. *)
Lemma scan_files_app (root_path : node) (prefix : str)
    (files dirs out : list str) :
  scan_files unicode_alnum root_path prefix files dirs out
  = out ++ lines_of root_path prefix files dirs.
Proof.
  unfold scan_files, file_lines. generalize (enumerate files) as l.
  intros l. revert out.
  induction l as [|[i f] l IH]; intros out; simpl.
  - rewrite app_nil_r. reflexivity.
  - rewrite IH, <- app_assoc. reflexivity.
Qed.

(** A child is less deep than its directory. *)
Lemma height_lookup (name : str) (entries : list (str * node)) :
  height (lookup name entries) < height (Dir entries).
Proof.
  simpl. apply Nat.lt_succ_r.
  induction entries as [|[n c] es IH]; simpl; [lia|].
  destruct (str_eqb n name); lia.
Qed.

Lemma listdir_inr (root_path : node) (names : list str) :
  listdir root_path = inr names ->
  exists entries, root_path = Dir entries /\ names = map fst entries.
Proof.
  destruct root_path; simpl; try discriminate.
  intros [= <-]. eauto.
Qed.

Lemma height_path_join (root_path : node) (names : list str) (item : str)
    (fuel : nat) :
  listdir root_path = inr names ->
  height root_path < S fuel -> height (path_join root_path item) < fuel.
Proof.
  intros L. apply listdir_inr in L. destruct L as [entries [-> _]].
  pose proof (height_lookup item entries). simpl path_join. lia.
Qed.

Lemma scan_directory_S (fuel : nat) (root_path : node) (prefix : str)
    (out : list str) (is_last : bool) :
  scan (S fuel) root_path prefix out is_last =
  match listdir root_path with
  | inr names =>
      let items := items_of names in
      let dirs := dirs_of root_path items in
      let files := files_of root_path items in
      scan_dirs (scan fuel) root_path prefix dirs
        (scan_files unicode_alnum root_path prefix files dirs out)
  | inl e => Some (out ++ [error_line prefix e])
  end.
Proof. reflexivity. Qed.

(** With fuel for the depth of the tree the walk returns, and what it
    appends depends neither on the fuel, nor on the output so far, nor
    on the flag. *)
Lemma scan_directory_agree (fuel1 : nat) :
  forall fuel2 root_path prefix out1 out2 b1 b2,
    height root_path < fuel1 -> height root_path < fuel2 ->
    exists t,
      scan fuel1 root_path prefix out1 b1 = Some (out1 ++ t)
      /\ scan fuel2 root_path prefix out2 b2 = Some (out2 ++ t).
Proof.
  induction fuel1 as [|f1 IH]; intros [|f2] root_path prefix out1 out2 b1 b2
    H1 H2; try lia.
  rewrite !scan_directory_S.
  destruct (listdir root_path) as [e|names] eqn:Hls; [eauto|].
  cbv zeta. rewrite !scan_files_app.
  set (dirs := dirs_of root_path (items_of names)).
  set (fl := lines_of root_path prefix _ dirs).
  unfold scan_dirs.
  assert (L : forall l o1 o2, exists t,
    fold_left
      (fun acc '(i, dirname) =>
         match acc with
         | Some out =>
             scan f1 (path_join root_path dirname) (new_prefix prefix dirs i)
               (out ++ [dir_line prefix dirs i dirname]) (is_final i dirs)
         | None => None
         end) l (Some o1) = Some (o1 ++ t)
    /\ fold_left
      (fun acc '(i, dirname) =>
         match acc with
         | Some out =>
             scan f2 (path_join root_path dirname) (new_prefix prefix dirs i)
               (out ++ [dir_line prefix dirs i dirname]) (is_final i dirs)
         | None => None
         end) l (Some o2) = Some (o2 ++ t)).
  { induction l as [|[i d] l IHl]; intros o1 o2; simpl.
    - exists []. rewrite !app_nil_r. auto.
    - destruct (IH f2 (path_join root_path d) (new_prefix prefix dirs i)
                  (o1 ++ [dir_line prefix dirs i d])
                  (o2 ++ [dir_line prefix dirs i d])
                  (is_final i dirs) (is_final i dirs))
        as [t1 [E1 E2]];
        try (apply height_path_join with (names := names); assumption).
      rewrite E1, E2.
      destruct (IHl ((o1 ++ [dir_line prefix dirs i d]) ++ t1)
                  ((o2 ++ [dir_line prefix dirs i d]) ++ t1))
        as [t2 [F1 F2]].
      exists ([dir_line prefix dirs i d] ++ t1 ++ t2).
      rewrite F1, F2, !app_assoc. auto. }
  destruct (L (enumerate dirs) (out1 ++ fl) (out2 ++ fl)) as [t [E1 E2]].
  exists (fl ++ t). rewrite E1, E2, !app_assoc. auto.
Qed.

Lemma scan_directory_total (fuel : nat) (root_path : node) (prefix : str)
    (out : list str) (is_last : bool) :
  height root_path < fuel ->
  scan fuel root_path prefix out is_last = Some (out ++ tree root_path prefix).
Proof.
  intros H.
  destruct (@scan_directory_agree fuel (S (height root_path)) root_path prefix
              out [] is_last true H) as [t [E1 E2]]; [lia|].
  unfold tree_of. rewrite E2. exact E1.
Qed.

(** The loop over the subdirectories appends one block per
    subdirectory. *)
Lemma scan_dirs_total (fuel : nat) (entries : list (str * node))
    (prefix : str) (dirs out : list str) :
  let root_path := Dir entries in
  height root_path < S fuel ->
  scan_dirs (scan fuel) root_path prefix dirs out
  = Some (out ++ concat (map (block_of root_path prefix dirs)
                           (enumerate dirs))).
Proof.
  intros root_path H. unfold scan_dirs. generalize (enumerate dirs) as l.
  intros l. revert out.
  induction l as [|[i d] l IH]; intros out; simpl.
  - rewrite app_nil_r. reflexivity.
  - rewrite scan_directory_total
      by (pose proof (height_lookup d entries); simpl in *; lia).
    rewrite IH, <- !app_assoc. reflexivity.
Qed.

(** The tree lines of a directory that lists: the lines of its files,
    then the blocks of its subdirectories. *)
Lemma tree_of_Dir (entries : list (str * node)) (prefix : str) :
  let root_path := Dir entries in
  let items := items_of (map fst entries) in
  let dirs := dirs_of root_path items in
  let files := files_of root_path items in
  tree root_path prefix
  = lines_of root_path prefix files dirs
    ++ concat (map (block_of root_path prefix dirs) (enumerate dirs)).
Proof.
  intros root_path items dirs files. unfold tree_of.
  rewrite scan_directory_S. subst files dirs items root_path.
  cbn [listdir]. cbv zeta.
  rewrite scan_files_app, scan_dirs_total by lia. reflexivity.
Qed.

(** The tree lines of a path that does not list: one error line. *)
Lemma tree_of_error (root_path : node) (prefix e : str) :
  listdir root_path = inl e -> tree root_path prefix = [error_line prefix e].
Proof.
  intros H. unfold tree_of. rewrite scan_directory_S, H. reflexivity.
Qed.

(** The shape of the line of a file. *)
Lemma file_line_shape (root_path : node) (prefix : str)
    (files dirs : list str) (i : nat) (filename : str) :
  exists label,
    line_of root_path prefix files dirs i filename
    = prefix
      ++ connector_of (Nat.eqb (S i) (length files)
                       && Nat.eqb (length dirs) 0)
      ++ filename ++ label.
Proof.
  unfold file_line. rewrite is_final_spec.
  destruct (extract (path_join root_path filename)) as [class_name summary].
  destruct (truthy class_name && truthy summary);
    [|destruct (truthy class_name)].
  - exists (ARROW ++ class_name ++ lit " (" ++ summary ++ lit ")").
    reflexivity.
  - exists (ARROW ++ class_name). reflexivity.
  - exists []. rewrite app_nil_r. reflexivity.
Qed.

Lemma file_line_nameless (root_path : node) (prefix : str)
    (files dirs : list str) (i : nat) (filename : str) :
  fst (extract (path_join root_path filename)) = [] ->
  line_of root_path prefix files dirs i filename
  = prefix
    ++ connector_of (Nat.eqb (S i) (length files) && Nat.eqb (length dirs) 0)
    ++ filename.
Proof.
  unfold file_line. rewrite is_final_spec.
  destruct (extract (path_join root_path filename)) as [class_name summary].
  simpl. intros ->. reflexivity.
Qed.

Lemma dir_line_shape (prefix : str) (dirs : list str) (i : nat)
    (dirname : str) :
  dir_line prefix dirs i dirname
  = prefix ++ connector_of (Nat.eqb (S i) (length dirs))
    ++ dirname ++ lit "/".
Proof. unfold dir_line. rewrite is_final_spec. reflexivity. Qed.

Lemma nth_error_map_enumerate {A B : Type} (g : nat * A -> B) (l : list A)
    (i : nat) :
  nth_error (map g (enumerate l)) i
  = option_map (fun x => g (i, x)) (nth_error l i).
Proof.
  unfold enumerate. rewrite nth_error_map, nth_error_enumerate_from.
  destruct (nth_error l i); reflexivity.
Qed.

Lemma length_file_lines (root_path : node) (prefix : str)
    (files dirs : list str) :
  length (lines_of root_path prefix files dirs) = length files.
Proof.
  unfold file_lines, enumerate.
  rewrite length_map, length_enumerate_from. reflexivity.
Qed.

Lemma Forall2_map_enumerate {A B : Type} (P : A -> B -> Prop)
    (g : nat * A -> B) (l : list A) :
  (forall i x, In x l -> P x (g (i, x))) ->
  Forall2 P l (map g (enumerate l)).
Proof.
  unfold enumerate. generalize 0 as k.
  induction l as [|x l IH]; intros k H; simpl; constructor.
  - apply H. left. reflexivity.
  - apply IH. intros i y Hy. apply H. right. exact Hy.
Qed.

Lemma nth_error_split_at {A : Type} (l : list A) (j : nat) (x : A) :
  nth_error l j = Some x -> l = firstn j l ++ x :: skipn (S j) l.
Proof.
  revert j. induction l as [|y l IH]; intros [|j]; simpl; try discriminate.
  - intros [= ->]. reflexivity.
  - intros H. f_equal. apply IH, H.
Qed.

Lemma fold_left_ext_in {A B : Type} (f g : A -> B -> A) (l : list B) (a : A) :
  (forall x, In x l -> forall acc, f acc x = g acc x) ->
  fold_left f l a = fold_left g l a.
Proof.
  revert a. induction l as [|x l IH]; intros a H; simpl; [reflexivity|].
  rewrite H by (left; reflexivity). apply IH.
  intros y Hy. apply H. right. exact Hy.
Qed.

(** Pruning leaves files as they are and keeps the kind of a node. *)

Lemma kept_excluded (item : str) : kept item = negb (excluded item).
Proof. unfold kept, excluded. rewrite negb_orb. reflexivity. Qed.

Lemma read_prune (n : node) : read (prune n) = read n.
Proof. destruct n; reflexivity. Qed.

Lemma extract_prune (n : node) : extract (prune n) = extract n.
Proof. unfold extract_class_info. rewrite read_prune. reflexivity. Qed.

Lemma isdir_prune (n : node) : isdir (prune n) = isdir n.
Proof. destruct n; reflexivity. Qed.

Lemma isfile_prune (n : node) : isfile (prune n) = isfile n.
Proof. destruct n; reflexivity. Qed.

Lemma prune_Dir (entries : list (str * node)) :
  prune (Dir entries)
  = Dir (filter (fun e => negb (excluded (fst e)))
           (map (fun e => (fst e, prune (snd e))) entries)).
Proof. reflexivity. Qed.

Lemma lookup_prune (name : str) (entries : list (str * node)) :
  excluded name = false ->
  lookup name (filter (fun e => negb (excluded (fst e)))
                 (map (fun e => (fst e, prune (snd e))) entries))
  = prune (lookup name entries).
Proof.
  intros Hname. induction entries as [|[n c] es IH]; [reflexivity|].
  cbn [map filter fst snd lookup].
  destruct (excluded n) eqn:En; cbn [negb lookup].
  - destruct (str_eqb n name) eqn:E; [|exact IH].
    apply str_eqb_eq in E. congruence.
  - destruct (str_eqb n name); [reflexivity | exact IH].
Qed.

Lemma path_join_prune (root_path : node) (item : str) :
  excluded item = false ->
  path_join (prune root_path) item = prune (path_join root_path item).
Proof.
  intros H. destruct root_path; try reflexivity.
  rewrite prune_Dir. cbn [path_join]. apply lookup_prune, H.
Qed.

Lemma listdir_prune (root_path : node) :
  listdir (prune root_path)
  = match listdir root_path with
    | inr names => inr (filter (fun n => negb (excluded n)) names)
    | inl e => inl e
    end.
Proof.
  destruct root_path as [c|e|entries|e|]; try reflexivity.
  rewrite prune_Dir. cbn [listdir]. f_equal.
  induction entries as [|[n c] es IH]; [reflexivity|].
  cbn [map filter fst]. destruct (negb (excluded n)); cbn [map fst];
    rewrite IH; reflexivity.
Qed.

Lemma items_of_kept (names : list str) (item : str) :
  In item (items_of names) -> excluded item = false.
Proof.
  unfold items_of. rewrite filter_In, kept_excluded. intros [_ H].
  destruct (excluded item); [discriminate | reflexivity].
Qed.

Lemma items_of_filter (names : list str) :
  items_of (filter (fun n => negb (excluded n)) names) = items_of names.
Proof.
  unfold items_of.
  rewrite (filter_ext _ _ (fun n => eq_sym (kept_excluded n))).
  rewrite <- filter_sorted.
  induction (sorted names) as [|x l IH]; [reflexivity|].
  simpl. destruct (kept x) eqn:E; simpl; rewrite ?E, IH; reflexivity.
Qed.

(** The walk of a pruned tree is the walk of the tree. *)
Lemma scan_directory_prune (fuel : nat) :
  forall root_path prefix out is_last,
    scan fuel (prune root_path) prefix out is_last
    = scan fuel root_path prefix out is_last.
Proof.
  induction fuel as [|fuel IH]; intros root_path prefix out is_last;
    [reflexivity|].
  rewrite !scan_directory_S, listdir_prune.
  destruct (listdir root_path) as [e|names]; [reflexivity|].
  cbv zeta. rewrite items_of_filter.
  set (items := items_of names).
  assert (Hd : dirs_of (prune root_path) items = dirs_of root_path items).
  { apply filter_ext_in. intros item Hin.
    rewrite path_join_prune by (eapply items_of_kept, Hin).
    apply isdir_prune. }
  assert (Hf : files_of (prune root_path) items = files_of root_path items).
  { apply filter_ext_in. intros item Hin.
    rewrite path_join_prune by (eapply items_of_kept, Hin).
    rewrite isfile_prune. reflexivity. }
  rewrite Hd, Hf.
  set (dirs := dirs_of root_path items).
  set (files := files_of root_path items).
  assert (Hl : scan_files unicode_alnum (prune root_path) prefix files dirs out
               = scan_files unicode_alnum root_path prefix files dirs out).
  { rewrite !scan_files_app. f_equal. apply map_ext_in.
    intros [i f] Hin. apply In_enumerate_from in Hin.
    apply filter_In in Hin. destruct Hin as [Hin _].
    unfold file_line.
    rewrite path_join_prune by (eapply items_of_kept, Hin).
    rewrite extract_prune. reflexivity. }
  rewrite Hl. unfold scan_dirs. apply fold_left_ext_in.
  intros [i d] Hin [acc|]; [|reflexivity].
  apply In_enumerate_from in Hin.
  apply filter_In in Hin. destruct Hin as [Hin _].
  rewrite path_join_prune by (eapply items_of_kept, Hin).
  apply IH.
Qed.

End WalkerFacts.

(** * The claims of the specification *)

Section Claims.

Variable unicode_alnum : char -> bool.

Local Abbreviation search := (Re.search unicode_alnum).
Local Abbreviation scan := (scan_directory unicode_alnum).
Local Abbreviation tree := (tree_of unicode_alnum).
Local Abbreviation extract := (extract_class_info unicode_alnum).
Local Abbreviation lines_of := (file_lines unicode_alnum).
Local Abbreviation block_of := (dir_block unicode_alnum).

(** C10: the walker never consults its "last sibling" flag: for every
    directory, prefix and initial output sequence (and every depth
    budget), the call with the flag set and the call with the flag
    cleared give the same result. *)
Theorem scan_directory_ignores_is_last (fuel : nat) (root_path : node)
    (prefix : str) (output_lines : list str) :
  scan fuel root_path prefix output_lines true
  = scan fuel root_path prefix output_lines false.
Proof.
  destruct fuel as [|fuel]; [reflexivity|].
  rewrite !scan_directory_S. reflexivity.
Qed.

(** C9: a file whose extracted class name is empty is rendered as
    prefix, connector and bare file name, whatever summary the
    Extractor returned: the line at the position of the [i]-th file of
    the listing is exactly that. *)
Theorem nameless_file_is_rendered_bare (fuel : nat)
    (entries : list (str * node)) (prefix : str) (output_lines : list str)
    (is_last : bool) (i : nat) (filename : str) :
  let root_path := Dir entries in
  let items := items_of (map fst entries) in
  let dirs := dirs_of root_path items in
  let files := files_of root_path items in
  height root_path < fuel ->
  nth_error files i = Some filename ->
  fst (extract (path_join root_path filename)) = [] ->
  exists result,
    scan fuel root_path prefix output_lines is_last = Some result
    /\ nth_error result (length output_lines + i)
       = Some (prefix
               ++ connector_of (Nat.eqb (S i) (length files)
                                && Nat.eqb (length dirs) 0)
               ++ filename).
Proof.
  intros root_path items dirs files Hfuel Hi Hname.
  rewrite scan_directory_total by exact Hfuel.
  eexists. split; [reflexivity|].
  unfold root_path. rewrite tree_of_Dir. fold root_path items dirs files.
  assert (Hlt : i < length files) by (apply nth_error_Some; congruence).
  rewrite nth_error_app2 by lia.
  replace (length output_lines + i - length output_lines) with i by lia.
  rewrite nth_error_app1 by (rewrite length_file_lines; exact Hlt).
  unfold file_lines. rewrite nth_error_map_enumerate, Hi. simpl.
  f_equal. apply file_line_nameless. exact Hname.
Qed.

(** C3: in every listing the [i]-th file gets the terminal connector
    exactly when it is the final file and the listing has no
    subdirectory, and the mid connector otherwise; the [j]-th
    subdirectory gets the terminal connector exactly when it is the
    final subdirectory.  So with a subdirectory no file has the terminal
    connector, and in a listing of files only the last file has it. *)
Theorem connectors_of_a_listing (fuel : nat) (entries : list (str * node))
    (prefix : str) (output_lines : list str) (is_last : bool) :
  let root_path := Dir entries in
  let items := items_of (map fst entries) in
  let dirs := dirs_of root_path items in
  let files := files_of root_path items in
  height root_path < fuel ->
  exists flines blocks,
    scan fuel root_path prefix output_lines is_last
    = Some (output_lines ++ flines ++ concat blocks)
    /\ length flines = length files
    /\ length blocks = length dirs
    /\ (forall i filename, nth_error files i = Some filename ->
        exists label,
          nth_error flines i
          = Some (prefix
                  ++ (if Nat.eqb (S i) (length files)
                         && Nat.eqb (length dirs) 0
                      then CONN_LAST else CONN_MID)
                  ++ filename ++ label))
    /\ (forall j dirname, nth_error dirs j = Some dirname ->
        exists subtree,
          nth_error blocks j
          = Some ((prefix
                   ++ (if Nat.eqb (S j) (length dirs)
                       then CONN_LAST else CONN_MID)
                   ++ dirname ++ lit "/") :: subtree)).
Proof.
  intros root_path items dirs files Hfuel.
  exists (lines_of root_path prefix files dirs),
    (map (block_of root_path prefix dirs) (enumerate dirs)).
  split; [|split; [|split; [|split]]].
  - rewrite scan_directory_total by exact Hfuel.
    unfold root_path. rewrite tree_of_Dir. reflexivity.
  - apply length_file_lines.
  - unfold enumerate. rewrite length_map.
    apply length_enumerate_from.
  - intros i filename Hi.
    destruct (file_line_shape unicode_alnum root_path prefix files dirs i
                filename) as [label E].
    exists label. unfold file_lines.
    rewrite nth_error_map_enumerate, Hi. simpl. rewrite E. reflexivity.
  - intros j dirname Hj. eexists.
    rewrite nth_error_map_enumerate, Hj. simpl.
    rewrite dir_line_shape. reflexivity.
Qed.

(** C4: in every listing the files are sorted and the subdirectories
    are sorted, each by the case-sensitive order of strings; the output
    of the level is the lines of the files, in that order, followed by
    the blocks of the subdirectories, in that order, each block being
    the line of the subdirectory and the tree below it. *)
Theorem files_then_directories_sorted (fuel : nat)
    (entries : list (str * node)) (prefix : str) (output_lines : list str)
    (is_last : bool) :
  let root_path := Dir entries in
  let items := items_of (map fst entries) in
  let dirs := dirs_of root_path items in
  let files := files_of root_path items in
  height root_path < fuel ->
  StronglySorted str_le files
  /\ StronglySorted str_le dirs
  /\ exists flines blocks,
      scan fuel root_path prefix output_lines is_last
      = Some (output_lines ++ flines ++ concat blocks)
      /\ Forall2 (fun filename line =>
                    exists connector label,
                      line = prefix ++ connector ++ filename ++ label)
           files flines
      /\ Forall2 (fun dirname block =>
                    exists connector prefix',
                      block = (prefix ++ connector ++ dirname ++ lit "/")
                              :: tree (path_join root_path dirname) prefix')
           dirs blocks.
Proof.
  intros root_path items dirs files Hfuel.
  assert (Hitems : StronglySorted str_le items).
  { apply filter_StronglySorted, sorted_StronglySorted. }
  split; [apply filter_StronglySorted, Hitems|].
  split; [apply filter_StronglySorted, Hitems|].
  exists (lines_of root_path prefix files dirs),
    (map (block_of root_path prefix dirs) (enumerate dirs)).
  split; [|split].
  - rewrite scan_directory_total by exact Hfuel.
    unfold root_path. rewrite tree_of_Dir. reflexivity.
  - apply Forall2_map_enumerate. intros i filename _.
    destruct (file_line_shape unicode_alnum root_path prefix files dirs i
                filename) as [label E].
    eexists _, label. exact E.
  - apply Forall2_map_enumerate. intros i dirname _.
    eexists _, _. unfold dir_block. rewrite dir_line_shape. reflexivity.
Qed.

(** C6: a directory whose listing fails with message [e] is rendered
    as exactly one line, the accumulated prefix followed by the
    bracketed message, and the call returns; no failure cuts the walk
    short.  In the parent, the block of a subdirectory whose listing
    fails is its own line followed by that one error line under the
    extended prefix, and the blocks of the siblings before and after it
    are all there. *)
Theorem listing_failure_is_local (fuel : nat) (root_path : node)
    (prefix : str) (output_lines : list str) (is_last : bool) :
  height root_path < fuel ->
  scan fuel root_path prefix output_lines is_last
  = Some (output_lines ++ tree root_path prefix)
  /\ (forall e, root_path = Unlistable e ->
      scan fuel root_path prefix output_lines is_last
      = Some (output_lines ++ [ prefix ++ ERROR_OPEN ++ e ++ lit "]" ]))
  /\ (forall entries j dirname e,
        root_path = Dir entries ->
        let items := items_of (map fst entries) in
        let dirs := dirs_of root_path items in
        let files := files_of root_path items in
        nth_error dirs j = Some dirname ->
        path_join root_path dirname = Unlistable e ->
        tree root_path prefix
        = lines_of root_path prefix files dirs
          ++ concat (map (block_of root_path prefix dirs)
                       (firstn j (enumerate dirs)))
          ++ [ prefix
               ++ (if Nat.eqb (S j) (length dirs)
                   then CONN_LAST else CONN_MID)
               ++ dirname ++ lit "/";
               (prefix
                ++ (if Nat.eqb (S j) (length dirs)
                    then CONT_LAST else CONT_MID))
               ++ ERROR_OPEN ++ e ++ lit "]" ]
          ++ concat (map (block_of root_path prefix dirs)
                       (skipn (S j) (enumerate dirs)))).
Proof.
  intros Hfuel. split; [apply scan_directory_total, Hfuel|].
  split.
  { intros e ->. rewrite scan_directory_total by exact Hfuel.
    rewrite (@tree_of_error unicode_alnum (Unlistable e) prefix e eq_refl).
    reflexivity. }
  intros entries j dirname e -> items dirs files Hj He.
  rewrite tree_of_Dir. fold items dirs files. f_equal.
  assert (Hn : nth_error (enumerate dirs) j = Some (j, dirname)).
  { unfold enumerate. rewrite nth_error_enumerate_from, Hj. reflexivity. }
  rewrite (nth_error_split_at _ _ Hn) at 1.
  rewrite map_app, concat_app. f_equal.
  cbn [map concat dir_block].
  rewrite He.
  rewrite (@tree_of_error unicode_alnum (Unlistable e) _ e eq_refl).
  rewrite dir_line_shape. unfold new_prefix, error_line, connector_of.
  rewrite is_final_spec. reflexivity.
Qed.

(** C8: entries whose name ends with [.meta] and entries named [.git]
    leave no trace in the output, at any depth: the walk of a tree is
    the walk of the tree from which every such entry, with all that is
    beneath it, has been removed; and the removal leaves none of them. *)
Theorem excluded_entries_are_invisible (fuel : nat) (root_path : node)
    (prefix : str) (output_lines : list str) (is_last : bool) :
  scan fuel root_path prefix output_lines is_last
  = scan fuel (prune root_path) prefix output_lines is_last
  /\ (forall entries name child,
        prune root_path = Dir entries -> In (name, child) entries ->
        endswith name EXT_META = false /\ name <> DOT_GIT
        /\ exists c, child = prune c).
Proof.
  split; [symmetry; apply scan_directory_prune|].
  intros entries name child Hp Hin.
  destruct root_path as [c|e|es|e|]; try discriminate.
  rewrite prune_Dir in Hp. injection Hp as <-.
  apply filter_In in Hin. destruct Hin as [Hin Hk].
  apply in_map_iff in Hin. destruct Hin as [[n c] [[= <- <-] _]].
  cbn [fst] in Hk. unfold excluded in Hk.
  rewrite negb_orb in Hk. apply andb_true_iff in Hk. destruct Hk as [Hm Hg].
  split; [destruct (endswith n EXT_META); [discriminate | reflexivity]|].
  split; [|eauto].
  intros ->. discriminate.
Qed.

(** C5: the trailing line of the document reports the number of tree
    lines that contain the substring [.cs]: every line with an
    occurrence of it counts once, whatever the line is the line of. *)
Theorem count_line_counts_lines (fuel : nat) (root_path : node) :
  height root_path < fuel ->
  exists tree_lines,
    scan fuel root_path [] [] true = Some tree_lines
    /\ generate_markdown unicode_alnum fuel root_path
       = Some (join [NL]
                 ([ TITLE; []; SUBTITLE; []; FENCE; ROOT_LABEL ]
                  ++ tree_lines
                  ++ [ FENCE; [];
                       TOTAL_OPEN
                       ++ str_of_nat
                            (length (filter (contains EXT_CS) tree_lines))
                       ++ TOTAL_CLOSE ]))
    /\ (forall line, contains EXT_CS line = true
                     <-> exists a b, line = a ++ EXT_CS ++ b).
Proof.
  intros Hfuel. exists (tree root_path []).
  assert (E : scan fuel root_path [] [] true = Some (tree root_path []))
    by (apply scan_directory_total, Hfuel).
  split; [exact E|]. split; [|intros line; apply contains_spec].
  unfold generate_markdown. rewrite E. reflexivity.
Qed.

(** C2 (the code at the failing input): a directory whose only file
    cannot be read.  The Extractor returns the empty name and a summary
    that embeds the message, and the walk goes on, but the line of the
    file is the bare file name: the message is in no output line. *)
Theorem unreadable_file_is_rendered_bare (fuel : nat) (e prefix : str)
    (output_lines : list str) (is_last : bool) :
  extract (Unreadable e) = ([], READ_FAILED ++ e ++ lit ")")
  /\ scan (S fuel) (Dir [ (lit "A.cs", Unreadable e) ]) prefix
       output_lines is_last
     = Some (output_lines ++ [ prefix ++ CONN_LAST ++ lit "A.cs" ]).
Proof.
  split; reflexivity.
Qed.

(** C1 (amended): the name comes from the first line, in scan order,
    that has a declaration at all, public or not (a line with a public
    declaration is such a line): the lines before it are passed over,
    and on it the identifier of the public pattern is taken if the
    public pattern matches, and the identifier of the bare pattern
    otherwise.  A public declaration on a later line does not change
    the result. *)
Theorem name_is_first_declaration (content : str) (pre : list str)
    (line : str) (post : list str) :
  split_nl content = pre ++ line :: post ->
  (forall x, In x pre -> search bare_re x = None) ->
  (forall x, In x pre -> search public_re x = None)
  /\ (forall gs, search public_re line = Some gs ->
      fst (extract (File content)) = group_of 2 gs)
  /\ (forall gs, search public_re line = None ->
      search bare_re line = Some gs ->
      fst (extract (File content)) = group_of 2 gs).
Proof.
  intros Hsplit Hpre.
  split; [intros x Hx; apply bare_none_public_none, Hpre, Hx|].
  unfold extract_class_info. cbn [read fst]. rewrite Hsplit.
  rewrite name_loop_skip by exact Hpre. cbn [name_loop truthy negb].
  split.
  - intros gs ->. reflexivity.
  - intros gs -> ->. reflexivity.
Qed.

(** C7 (amended): when the first match of the summary pattern in the
    file captures text with some content (a character that is neither
    white space nor a slash) and some line has a public type
    declaration, the Extractor yields a non-empty name and a non-empty
    summary of at most 100 characters without a newline. *)
Theorem summary_of_first_block (content : str) (gs : list str) :
  search summary_re content = Some gs ->
  has_text (group_of 1 gs) = true ->
  (exists line, In line (split_nl content)
                /\ search public_re line <> None) ->
  fst (extract (File content)) <> []
  /\ snd (extract (File content)) <> []
  /\ length (snd (extract (File content))) <= 100
  /\ ~ In NL (snd (extract (File content))).
Proof.
  intros Hm Ht Hpub. unfold extract_class_info. cbn [read fst snd].
  split; [apply name_loop_nonempty, Hpub|].
  split; [eapply extract_summary_nonempty; eassumption|].
  apply extract_summary_bounds.
Qed.

End Claims.

(** * Instances and counterexamples *)

(** C1 as stated fails: in a file whose first line declares [Foo]
    without [public] and whose second line declares [Bar] with it, the
    first line matching the public pattern is the second one, and the
    name returned is [Foo]. *)
Lemma public_declaration_on_later_line :
  ~ exists unicode_alnum,
      forall content pre line post gs,
        split_nl content = pre ++ line :: post ->
        (forall x, In x pre -> search unicode_alnum public_re x = None) ->
        search unicode_alnum public_re line = Some gs ->
        fst (extract_class_info unicode_alnum (File content))
        = group_of 2 gs.
Proof.
  intros [U H].
  specialize (H two_declarations [lit "class Foo"] (lit "public class Bar")
                [] [lit "class"; lit "Bar"] eq_refl).
  assert (E : fst (extract_class_info U (File two_declarations))
              = group_of 2 [lit "class"; lit "Bar"]).
  { apply H; [|reflexivity].
    intros x [<-|[]]. reflexivity. }
  vm_compute in E. discriminate E.
Qed.

Lemma name_is_first_declaration_witness :
  fst (extract_class_info ascii_only (File two_declarations)) = lit "Foo".
Proof.
  apply (proj2 (proj2
    (@name_is_first_declaration ascii_only two_declarations []
       (lit "class Foo") [lit "public class Bar"] eq_refl
       (fun x (H : In x []) => match H with end)))
    [lit "class"; lit "Foo"]); reflexivity.
Defined.

(** C7 as stated fails: a file that contains a block with the content
    line "Does X" and a public declaration, but in which a block with
    an empty content line comes first, gets an empty summary. *)
Lemma summary_block_after_empty_block :
  ~ exists unicode_alnum,
      forall content,
        (exists pre text post,
            content = pre ++ summary_block text ++ post
            /\ has_text text = true /\ ~ In NL text) ->
        (exists line, In line (split_nl content)
                      /\ search unicode_alnum public_re line <> None) ->
        fst (extract_class_info unicode_alnum (File content)) <> []
        /\ snd (extract_class_info unicode_alnum (File content)) <> []
        /\ length (snd (extract_class_info unicode_alnum (File content)))
           <= 100
        /\ ~ In NL (snd (extract_class_info unicode_alnum (File content))).
Proof.
  intros [U H]. destruct (H two_blocks) as [_ [Hs _]].
  - exists (summary_block [] ++ [NL]), (lit "Does X"),
      (NL :: lit "public class Foo").
    split; [reflexivity|]. split; [reflexivity|].
    intros Hin. vm_compute in Hin. intuition discriminate.
  - exists (lit "public class Foo"). split.
    + vm_compute. tauto.
    + vm_compute. discriminate.
  - apply Hs. reflexivity.
Qed.

Lemma summary_of_first_block_witness :
  extract_class_info ascii_only A_cs = (lit "Foo", lit "Does X")
  /\ fst (extract_class_info ascii_only A_cs) <> []
  /\ snd (extract_class_info ascii_only A_cs) <> []
  /\ length (snd (extract_class_info ascii_only A_cs)) <= 100
  /\ ~ In NL (snd (extract_class_info ascii_only A_cs)).
Proof.
  split; [reflexivity|].
  apply (@summary_of_first_block ascii_only
           (text_of [ summary_block (lit "Does X");
                      lit "public class Foo { }" ])
           [lit "Does X"]).
  - reflexivity.
  - reflexivity.
  - exists (lit "public class Foo { }"). split.
    + vm_compute. tauto.
    + vm_compute. discriminate.
Defined.

Lemma nameless_file_is_rendered_bare_witness :
  exists result,
    scan_directory ascii_only 2 (Dir unreadable_entries) [] [] true
    = Some result
    /\ nth_error result 0 = Some (CONN_LAST ++ lit "A.cs").
Proof.
  apply (@nameless_file_is_rendered_bare ascii_only 2 unreadable_entries
           [] [] true 0 (lit "A.cs")).
  - vm_compute. lia.
  - reflexivity.
  - reflexivity.
Defined.

Lemma connectors_of_a_listing_witness :
  height fixture < 3
  /\ exists flines blocks,
      scan_directory ascii_only 3 fixture [] [] true
      = Some (flines ++ concat blocks)
      /\ (exists label,
            nth_error flines 0 = Some (CONN_MID ++ lit "A.cs" ++ label))
      /\ (exists subtree,
            nth_error blocks 0 = Some ((CONN_LAST ++ lit "sub/") :: subtree)).
Proof.
  assert (H : height fixture < 3) by (vm_compute; lia).
  split; [exact H|].
  destruct (@connectors_of_a_listing ascii_only 3 fixture_entries [] [] true H)
    as [flines [blocks [E [_ [_ [Hf Hd]]]]]].
  exists flines, blocks. split; [exact E|]. split.
  - apply (Hf 0 (lit "A.cs")). reflexivity.
  - apply (Hd 0 (lit "sub")). reflexivity.
Defined.

Lemma files_then_directories_sorted_witness :
  height fixture < 3
  /\ StronglySorted str_le [lit "A.cs"]
  /\ StronglySorted str_le [lit "sub"].
Proof.
  assert (H : height fixture < 3) by (vm_compute; lia).
  split; [exact H|].
  destruct (@files_then_directories_sorted ascii_only 3 fixture_entries
              [] [] true H) as [Hf [Hd _]].
  split; [exact Hf | exact Hd].
Defined.

Lemma listing_failure_is_local_witness :
  height (Dir locked_entries) < 3
  /\ scan_directory ascii_only 3 (Dir locked_entries) [] [] true
     = Some (tree_of ascii_only (Dir locked_entries) [])
  /\ tree_of ascii_only (Dir locked_entries) []
     = [ CONN_MID ++ lit "a/";
         CONN_MID ++ lit "b/";
         CONT_MID ++ ERROR_OPEN ++ lit "[Errno 13] Permission denied]";
         CONN_LAST ++ lit "c/";
         CONT_LAST ++ CONN_LAST ++ lit "C.cs" ].
Proof.
  assert (H : height (Dir locked_entries) < 3) by (vm_compute; lia).
  split; [exact H|].
  destruct (@listing_failure_is_local ascii_only 3 (Dir locked_entries)
              [] [] true H) as [E [_ Hsub]].
  split; [exact E|].
  rewrite (Hsub locked_entries 1 (lit "b")
             (lit "[Errno 13] Permission denied") eq_refl eq_refl eq_refl).
  reflexivity.
Defined.

Lemma count_line_counts_lines_witness :
  height named_like_a_file < 3
  /\ exists tree_lines,
      scan_directory ascii_only 3 named_like_a_file [] [] true
      = Some tree_lines
      /\ generate_markdown ascii_only 3 named_like_a_file
         = Some (join [NL]
                   ([ TITLE; []; SUBTITLE; []; FENCE; ROOT_LABEL ]
                    ++ tree_lines
                    ++ [ FENCE; [];
                         TOTAL_OPEN
                         ++ str_of_nat
                              (length (filter (contains EXT_CS) tree_lines))
                         ++ TOTAL_CLOSE ])).
Proof.
  assert (H : height named_like_a_file < 3) by (vm_compute; lia).
  split; [exact H|].
  destruct (@count_line_counts_lines ascii_only 3 named_like_a_file H)
    as [tree_lines [E [G _]]].
  exists tree_lines. split; [exact E | exact G].
Defined.

(** ** The fixture of the specification *)

(** [A.cs] is rendered before [sub/], its line ends with the arrow, the
    name [Foo] and the summary; [sub/] is expanded and [B.cs] is shown
    bare; the sidecar and the version-control directory are absent. *)
Example fixture_tree :
  scan_directory ascii_only 3 fixture [] [] true
  = Some [ CONN_MID ++ lit "A.cs" ++ ARROW ++ lit "Foo (Does X)";
           CONN_LAST ++ lit "sub/";
           CONT_LAST ++ CONN_LAST ++ lit "B.cs" ].
Proof. reflexivity. Qed.

(** A directory named like a source file is counted, though the tree
    has no file at all. *)
Example directory_name_is_counted :
  scan_directory ascii_only 3 named_like_a_file [] [] true
  = Some [ CONN_LAST ++ lit "old.cs/" ]
  /\ count_line [ CONN_LAST ++ lit "old.cs/" ]
     = TOTAL_OPEN ++ lit "1" ++ TOTAL_CLOSE.
Proof. split; reflexivity. Qed.

(** * Further properties of the program *)

(** ** The Extractor on a file that can be read *)

Section ExtractorProperties.

Variable unicode_alnum : char -> bool.

Local Abbreviation match_here := (Re.match_here unicode_alnum).
Local Abbreviation search := (Re.search unicode_alnum).
Local Abbreviation isword := (Re.isword unicode_alnum).
Local Abbreviation name_search := (name_loop unicode_alnum).
Local Abbreviation extract := (extract_class_info unicode_alnum).

Lemma name_loop_empty_inv (lines : list str) :
  name_search [] lines = [] ->
  forall line, In line lines -> search bare_re line = None.
Proof.
  induction lines as [|x lines IH]; intros H line Hin; [destruct Hin|].
  simpl in H.
  destruct (Re.search unicode_alnum public_re x) as [gs|] eqn:P.
  - exfalso. eapply public_search_identifier; eassumption.
  - destruct (Re.search unicode_alnum bare_re x) as [gs|] eqn:B.
    + exfalso. eapply bare_search_identifier; eassumption.
    + destruct Hin as [<-|Hin]; [exact B | apply IH; assumption].
Qed.

Lemma bare_match_word (s : str) (gs : list str) (rest : str) :
  match_here bare_re s = Some (gs, rest) ->
  Forall (fun c => isword c = true) (group_of 2 gs).
Proof.
  unfold bare_re, group, plain. intros H.
  apply match_here_cons in H. destruct H as [n1 [gs1 [_ [H ->]]]].
  apply match_here_cons in H. destruct H as [n2 [gs2 [_ [H ->]]]].
  apply match_here_cons in H. destruct H as [n3 [gs3 [Hn [H ->]]]].
  apply candidates_greedy in Hn. unfold group_of. simpl.
  apply (span_firstn unicode_alnum Word). lia.
Qed.

Lemma bare_search_word (line : str) (gs : list str) :
  search bare_re line = Some gs ->
  Forall (fun c => isword c = true) (group_of 2 gs).
Proof.
  intros H. apply search_Some_inv in H. destruct H as [k [rest H]].
  eapply bare_match_word, H.
Qed.

Lemma public_search_word (line : str) (gs : list str) :
  search public_re line = Some gs ->
  Forall (fun c => isword c = true) (group_of 2 gs).
Proof.
  intros H. apply search_Some_inv in H. destruct H as [k [rest H]].
  unfold public_re, plain in H.
  apply match_here_cons in H. destruct H as [n1 [gs1 [_ [H ->]]]].
  apply match_here_cons in H. destruct H as [n2 [gs2 [_ [H ->]]]].
  eapply bare_match_word, H.
Qed.

(** X1: whatever the text of a file, its summary has at most 100
    characters and no newline. *)
Theorem summary_is_short_and_on_one_line (content : str) :
  length (snd (extract (File content))) <= 100
  /\ ~ In NL (snd (extract (File content))).
Proof.
  unfold extract_class_info. cbn [read snd].
  apply extract_summary_bounds.
Qed.

(** X2: the name of a file is empty exactly when no line of the file
    matches the bare keyword and identifier pattern. *)
Theorem name_is_empty_iff_no_declaration (content : str) :
  fst (extract (File content)) = []
  <-> (forall line, In line (split_nl content) ->
                    search bare_re line = None).
Proof.
  unfold extract_class_info. cbn [read fst]. split.
  - apply name_loop_empty_inv.
  - apply name_loop_none.
Qed.

Lemma isword_ascii_not_space (c : char) :
  (c < 128)%N -> isword c = true -> isspace c = false.
Proof.
  unfold Re.isword, isspace. intros Hc.
  destruct (N.ltb_spec c 128) as [_|Hge]; [|lia].
  rewrite !orb_true_iff, !andb_true_iff, !N.leb_le, !N.eqb_eq.
  intros H.
  repeat match goal with
         | |- (_ || _)%bool = false => apply orb_false_iff; split
         | |- (_ && _)%bool = false => apply andb_false_iff
         end;
    rewrite ?N.leb_gt, ?N.eqb_neq; lia.
Qed.

Lemma name_loop_word (lines : list str) :
  Forall (fun c => isword c = true) (name_search [] lines).
Proof.
  induction lines as [|x lines IH]; simpl; [constructor|].
  destruct (Re.search unicode_alnum public_re x) as [gs|] eqn:P.
  - eapply public_search_word, P.
  - destruct (Re.search unicode_alnum bare_re x) as [gs|] eqn:B.
    + eapply bare_search_word, B.
    + exact IH.
Qed.

(** X3: the name of a file is made of word characters only.  It never
    contains a newline, nor any white space below U+0080; and it
    contains no white space at all when the character table marks no
    white space character as alphanumeric, as the Unicode database
    does. *)
Theorem name_is_made_of_word_characters (content : str) :
  Forall (fun c => isword c = true) (fst (extract (File content)))
  /\ ~ In NL (fst (extract (File content)))
  /\ Forall (fun c => (c < 128)%N -> isspace c = false)
       (fst (extract (File content)))
  /\ ((forall c, unicode_alnum c = true -> isspace c = false) ->
      Forall (fun c => isspace c = false) (fst (extract (File content)))).
Proof.
  unfold extract_class_info. cbn [read fst].
  pose proof (name_loop_word (split_nl content)) as W.
  rewrite Forall_forall in W.
  split; [apply Forall_forall, W|]. split.
  - intros Hin. apply W in Hin. discriminate Hin.
  - split.
    + apply Forall_forall. intros c Hin Hc.
      apply isword_ascii_not_space; [exact Hc | apply W, Hin].
    + intros Htable. apply Forall_forall. intros c Hin.
      destruct (N.ltb_spec c 128) as [Hc|Hc].
      * apply isword_ascii_not_space; [exact Hc | apply W, Hin].
      * apply Htable. specialize (W c Hin). unfold Re.isword in W.
        destruct (N.ltb_spec c 128); [lia | exact W].
Qed.

End ExtractorProperties.

(** ** No comment leader is left in a summary *)

Section LeaderRemoval.

Variable unicode_alnum : char -> bool.

Local Abbreviation match_here := (Re.match_here unicode_alnum).
Local Abbreviation span := (Re.span unicode_alnum).
Local Abbreviation sub_delete := (Re.sub_delete unicode_alnum).
Local Abbreviation strip_leaders := (Re.sub_delete unicode_alnum leader_re 0).
Local Abbreviation extract := (extract_class_info unicode_alnum).

Lemma startswith_cons (y : char) (s : str) (x : char) (p : str) :
  startswith (y :: s) (x :: p) = char_eqb x y && startswith s p.
Proof. reflexivity. Qed.

Lemma rev_seq_S (k : nat) : rev (seq 0 (S k)) = k :: rev (seq 0 k).
Proof. rewrite seq_S, rev_app_distr. reflexivity. Qed.

(** Where the text starts with three slashes the leader pattern
    matches, and consumes at least those. *)
Lemma leader_match_here (s : str) :
  startswith s (lit "///") = true ->
  exists n, 1 <= n <= length s
            /\ match_here leader_re s = Some ([], skipn n s).
Proof.
  intros H. apply startswith_spec in H. destruct H as [r ->].
  exists (3 + span Space r). split.
  - pose proof (span_le_length unicode_alnum Space r).
    rewrite length_app. simpl. lia.
  - unfold leader_re. rewrite match_here_lit.
    unfold plain. cbn [Re.match_here Re.candidates].
    rewrite Nat.sub_0_r, rev_seq_S. cbn [first_some Re.match_here].
    reflexivity.
Qed.

Lemma sub_delete_skip (p : pattern) (k : nat) (s : str) :
  sub_delete p k s = sub_delete p 0 (skipn k s).
Proof.
  revert k. induction s as [|c s IH]; intros [|k]; try reflexivity.
  rewrite sub_delete_cons. cbn [skipn]. apply IH.
Qed.

Lemma strip_leaders_match (s : str) :
  startswith s (lit "///") = true ->
  exists n, 1 <= n /\ strip_leaders s = strip_leaders (skipn n s).
Proof.
  intros H. destruct (leader_match_here s H) as [n [Hn E]].
  exists n. split; [lia|].
  destruct s as [|c s]; [simpl in Hn; lia|].
  rewrite sub_delete_cons, E, length_skipn.
  replace (length (c :: s) - (length (c :: s) - n)) with n by lia.
  destruct n as [|k]; [lia|].
  rewrite sub_delete_skip. reflexivity.
Qed.

Lemma strip_leaders_nomatch (c : char) (s : str) :
  startswith (c :: s) (lit "///") = false ->
  strip_leaders (c :: s) = c :: strip_leaders s.
Proof.
  intros H. rewrite sub_delete_cons.
  unfold leader_re at 1. rewrite match_here_lit_fail by exact H.
  reflexivity.
Qed.

Lemma strip_leaders_head1 (s : str) :
  startswith s [SLASH] = false -> startswith (strip_leaders s) [SLASH] = false.
Proof.
  destruct s as [|c s]; [reflexivity|].
  intros H. rewrite startswith_cons in H. cbn [startswith] in H.
  rewrite andb_true_r in H.
  rewrite strip_leaders_nomatch.
  - rewrite startswith_cons, H. reflexivity.
  - change (lit "///") with (SLASH :: lit "//").
    rewrite startswith_cons, H. reflexivity.
Qed.

Lemma strip_leaders_head2 (s : str) :
  startswith s (lit "//") = false ->
  startswith (strip_leaders s) (lit "//") = false.
Proof.
  destruct s as [|c s]; [reflexivity|].
  change (lit "//") with (SLASH :: [SLASH]).
  rewrite startswith_cons. intros H.
  rewrite strip_leaders_nomatch.
  - rewrite startswith_cons.
    destruct (char_eqb SLASH c); [|reflexivity].
    cbn [andb] in *. apply strip_leaders_head1, H.
  - change (lit "///") with (SLASH :: SLASH :: [SLASH]).
    rewrite startswith_cons.
    destruct (char_eqb SLASH c); [|reflexivity].
    cbn [andb] in *. destruct s as [|d s]; [reflexivity|].
    rewrite startswith_cons in *.
    destruct (char_eqb SLASH d); [|reflexivity].
    cbn [andb] in *. cbn [startswith] in H. discriminate H.
Qed.

Lemma strip_leaders_clean_bounded (n : nat) :
  forall s, length s <= n ->
            contains (lit "///") (strip_leaders s) = false.
Proof.
  induction n as [|n IH]; intros s Hlen.
  - destruct s; [reflexivity | simpl in Hlen; lia].
  - destruct s as [|c s]; [reflexivity|].
    destruct (startswith (c :: s) (lit "///")) eqn:E.
    + destruct (strip_leaders_match _ E) as [k [Hk ->]].
      apply IH. rewrite length_skipn. cbn [length] in *. lia.
    + rewrite strip_leaders_nomatch by exact E.
      cbn [contains]. rewrite IH by (simpl in Hlen; lia).
      rewrite orb_false_r.
      change (lit "///") with (SLASH :: lit "//") in *.
      rewrite startswith_cons in *.
      destruct (char_eqb SLASH c); [|reflexivity].
      cbn [andb] in *. apply strip_leaders_head2, E.
Qed.

Lemma contains_firstn (sub s : str) (n : nat) :
  contains sub s = false -> contains sub (firstn n s) = false.
Proof.
  intros H. destruct (contains sub (firstn n s)) eqn:E; [|reflexivity].
  apply contains_spec in E. destruct E as [a [b E]].
  assert (C : contains sub s = true).
  { apply contains_spec. exists a, (b ++ skipn n s).
    rewrite <- (firstn_skipn n s) at 1. rewrite E, <- !app_assoc.
    reflexivity. }
  congruence.
Qed.

Lemma contains_replace_nl (s : str) :
  contains (lit "///") s = false ->
  contains (lit "///") (replace_char NL SP s) = false.
Proof.
  intros H.
  destruct (contains (lit "///") (replace_char NL SP s)) eqn:E;
    [|reflexivity].
  apply contains_spec in E. destruct E as [a [b E]].
  unfold replace_char in E.
  apply map_eq_app in E. destruct E as [a' [r [-> [_ E]]]].
  apply map_eq_app in E. destruct E as [l [b' [-> [El _]]]].
  assert (l = lit "///").
  { destruct l as [|c1 [|c2 [|c3 [|c4 l]]]]; try discriminate El.
    cbn [map] in El.
    assert (F : forall c, (if char_eqb c NL then SP else c) = SLASH ->
                          c = SLASH).
    { intros c. destruct (char_eqb c NL); [discriminate | auto]. }
    injection El as E1 E2 E3.
    apply F in E1, E2, E3. subst. reflexivity. }
  subst l.
  assert (C : contains (lit "///") (a' ++ lit "///" ++ b') = true)
    by (apply contains_spec; eauto).
  congruence.
Qed.

(** X4: the summary of a file never contains a comment leader [///]. *)
Theorem summary_has_no_comment_leader (content : str) :
  contains (lit "///") (snd (extract (File content))) = false.
Proof.
  unfold extract_class_info. cbn [read snd]. unfold extract_summary.
  destruct (Re.search unicode_alnum summary_re content) as [gs|];
    [|reflexivity].
  apply contains_firstn, contains_replace_nl.
  eapply strip_leaders_clean_bounded. apply Nat.le_refl.
Qed.

End LeaderRemoval.

(** ** The Tree Walker: prefixes, completeness and the count *)

Section WalkerProperties.

Variable unicode_alnum : char -> bool.

Local Abbreviation scan := (scan_directory unicode_alnum).
Local Abbreviation tree := (tree_of unicode_alnum).
Local Abbreviation extract := (extract_class_info unicode_alnum).
Local Abbreviation line_of := (file_line unicode_alnum).
Local Abbreviation lines_of := (file_lines unicode_alnum).
Local Abbreviation block_of := (dir_block unicode_alnum).

Lemma file_line_app_prefix (root_path : node) (p q : str)
    (files dirs : list str) (i : nat) (filename : str) :
  line_of root_path (p ++ q) files dirs i filename
  = p ++ line_of root_path q files dirs i filename.
Proof.
  unfold file_line.
  destruct (extract (path_join root_path filename)) as [class_name summary].
  destruct (truthy class_name && truthy summary);
    [|destruct (truthy class_name)];
    rewrite <- app_assoc; reflexivity.
Qed.

Lemma dir_line_app_prefix (p q : str) (dirs : list str) (i : nat)
    (dirname : str) :
  dir_line (p ++ q) dirs i dirname = p ++ dir_line q dirs i dirname.
Proof. unfold dir_line. rewrite <- app_assoc. reflexivity. Qed.

Lemma new_prefix_app_prefix (p q : str) (dirs : list str) (i : nat) :
  new_prefix (p ++ q) dirs i = p ++ new_prefix q dirs i.
Proof. unfold new_prefix. rewrite <- app_assoc. reflexivity. Qed.

Lemma tree_of_app_prefix (n : nat) :
  forall root_path p q,
    height root_path < n ->
    tree root_path (p ++ q) = map (app p) (tree root_path q).
Proof.
  induction n as [|n IH]; intros root_path p q Hn; [lia|].
  destruct (listdir root_path) as [e|names] eqn:L.
  - rewrite !(tree_of_error unicode_alnum _ _ L).
    unfold error_line. cbn [map]. rewrite <- app_assoc. reflexivity.
  - destruct (listdir_inr _ L) as [entries [-> _]].
    rewrite !tree_of_Dir. cbv zeta.
    rewrite map_app. f_equal.
    + unfold file_lines. rewrite map_map. apply map_ext.
      intros [i f]. apply file_line_app_prefix.
    + rewrite concat_map, map_map. f_equal. apply map_ext.
      intros [i d]. cbn [dir_block map].
      rewrite dir_line_app_prefix, new_prefix_app_prefix. f_equal.
      apply IH. pose proof (height_lookup d entries).
      cbn [path_join]. lia.
Qed.

(** X5: the prefix is only put in front: a walk with a prefix appends
    the lines of the walk with the empty prefix, each with the prefix in
    front of it. *)
Theorem prefix_is_prepended_to_every_line (fuel : nat) (root_path : node)
    (prefix : str) (output_lines : list str) (is_last : bool) :
  height root_path < fuel ->
  scan fuel root_path prefix output_lines is_last
  = Some (output_lines ++ map (app prefix) (tree root_path [])).
Proof.
  intros H. rewrite scan_directory_total by exact H.
  rewrite <- (app_nil_r prefix) at 1.
  rewrite (@tree_of_app_prefix fuel root_path prefix [] H). reflexivity.
Qed.

(** A source file is never an excluded entry. *)
Lemma endswith_cs_kept (name : str) :
  endswith name EXT_CS = true -> kept name = true.
Proof.
  intros H. unfold kept. apply andb_true_iff. split.
  - unfold endswith in *.
    change (rev EXT_CS) with [115; 99; 46]%N in H.
    change (rev EXT_META) with [97; 116; 101; 109; 46]%N.
    destruct (rev name) as [|c r]; [discriminate H|].
    rewrite startswith_cons in *.
    apply andb_true_iff in H. destruct H as [H _].
    apply char_eqb_eq in H. subst c. reflexivity.
  - destruct (str_eqb name DOT_GIT) eqn:E; [|reflexivity].
    apply str_eqb_eq in E. subst name. discriminate H.
Qed.

Lemma In_items_of (names : list str) (item : str) :
  In item (items_of names) <-> In item names /\ kept item = true.
Proof. unfold items_of. rewrite filter_In, sorted_In. reflexivity. Qed.

Lemma nth_error_tree_file (entries : list (str * node)) (prefix : str)
    (out : list str) (i : nat) (filename : str) :
  let root_path := Dir entries in
  let items := items_of (map fst entries) in
  let dirs := dirs_of root_path items in
  let files := files_of root_path items in
  nth_error files i = Some filename ->
  nth_error (out ++ tree root_path prefix) (length out + i)
  = Some (line_of root_path prefix files dirs i filename).
Proof.
  intros root_path items dirs files Hi.
  unfold root_path. rewrite tree_of_Dir. fold root_path items dirs files.
  assert (Hlt : i < length files) by (apply nth_error_Some; congruence).
  rewrite nth_error_app2 by lia.
  replace (length out + i - length out) with i by lia.
  rewrite nth_error_app1 by (rewrite length_file_lines; exact Hlt).
  unfold file_lines. rewrite nth_error_map_enumerate, Hi. reflexivity.
Qed.

(** X6: no source file is lost: every regular file of a listing whose
    name ends with [.cs] has its line in the output, at the position of
    its rank among the files. *)
Theorem every_source_file_is_listed (fuel : nat)
    (entries : list (str * node)) (prefix : str) (output_lines : list str)
    (is_last : bool) (name : str) :
  let root_path := Dir entries in
  let items := items_of (map fst entries) in
  let dirs := dirs_of root_path items in
  let files := files_of root_path items in
  height root_path < fuel ->
  In name (map fst entries) ->
  isfile (path_join root_path name) = true ->
  endswith name EXT_CS = true ->
  exists result i label,
    scan fuel root_path prefix output_lines is_last = Some result
    /\ nth_error files i = Some name
    /\ nth_error result (length output_lines + i)
       = Some (prefix
               ++ connector_of (Nat.eqb (S i) (length files)
                                && Nat.eqb (length dirs) 0)
               ++ name ++ label).
Proof.
  intros root_path items dirs files Hfuel Hin Hfile Hext.
  assert (Hf : In name files).
  { apply filter_In. split.
    - apply In_items_of. split; [exact Hin | apply endswith_cs_kept, Hext].
    - rewrite Hfile, Hext. reflexivity. }
  apply In_nth_error in Hf. destruct Hf as [i Hi].
  destruct (file_line_shape unicode_alnum root_path prefix files dirs i name)
    as [label E].
  exists (output_lines ++ tree root_path prefix), i, label.
  split; [apply scan_directory_total, Hfuel|]. split; [exact Hi|].
  unfold root_path. rewrite nth_error_tree_file with (filename := name)
    by exact Hi.
  f_equal. exact E.
Qed.

(** X7: no subdirectory is lost: every directory of a listing that is
    not an excluded entry has its line, with the trailing slash, in the
    output. *)
Theorem every_subdirectory_is_listed (fuel : nat)
    (entries : list (str * node)) (prefix : str) (output_lines : list str)
    (is_last : bool) (name : str) :
  let root_path := Dir entries in
  let items := items_of (map fst entries) in
  let dirs := dirs_of root_path items in
  height root_path < fuel ->
  In name (map fst entries) ->
  isdir (path_join root_path name) = true ->
  excluded name = false ->
  exists result j,
    scan fuel root_path prefix output_lines is_last = Some result
    /\ nth_error dirs j = Some name
    /\ In (prefix ++ connector_of (Nat.eqb (S j) (length dirs))
           ++ name ++ lit "/") result.
Proof.
  intros root_path items dirs Hfuel Hin Hdir Hex.
  assert (Hd : In name dirs).
  { apply filter_In. split; [|exact Hdir].
    apply In_items_of. split; [exact Hin|].
    rewrite kept_excluded, Hex. reflexivity. }
  apply In_nth_error in Hd. destruct Hd as [j Hj].
  exists (output_lines ++ tree root_path prefix), j.
  split; [apply scan_directory_total, Hfuel|]. split; [exact Hj|].
  apply in_or_app. right. unfold root_path. rewrite tree_of_Dir.
  fold root_path items dirs. apply in_or_app. right.
  apply in_concat. exists (block_of root_path prefix dirs (j, name)).
  split.
  - apply in_map. apply nth_error_In with (n := j).
    unfold enumerate. rewrite nth_error_enumerate_from, Hj. reflexivity.
  - cbn [dir_block]. left. apply dir_line_shape.
Qed.

Lemma file_line_contains_cs (root_path : node) (prefix : str)
    (files dirs : list str) (i : nat) (filename : str) :
  endswith filename EXT_CS = true ->
  contains EXT_CS (line_of root_path prefix files dirs i filename) = true.
Proof.
  intros H. apply endswith_spec in H. destruct H as [r ->].
  destruct (file_line_shape unicode_alnum root_path prefix files dirs i
              (r ++ EXT_CS)) as [label ->].
  apply contains_spec.
  exists (prefix
          ++ connector_of (Nat.eqb (S i) (length files)
                           && Nat.eqb (length dirs) 0) ++ r), label.
  rewrite <- !app_assoc. reflexivity.
Qed.

Lemma filter_all {A : Type} (f : A -> bool) (l : list A) :
  (forall x, In x l -> f x = true) -> filter f l = l.
Proof.
  induction l as [|x l IH]; intros H; simpl; [reflexivity|].
  rewrite H by (left; reflexivity). f_equal. apply IH.
  intros y Hy. apply H. right. exact Hy.
Qed.

Lemma file_lines_all_contain_cs (root_path : node) (prefix : str)
    (items dirs : list str) :
  let files := files_of root_path items in
  filter (contains EXT_CS) (lines_of root_path prefix files dirs)
  = lines_of root_path prefix files dirs.
Proof.
  intros files. apply filter_all. intros line Hin.
  unfold file_lines in Hin. apply in_map_iff in Hin.
  destruct Hin as [[i f] [<- Hin]].
  apply In_enumerate_from in Hin. apply filter_In in Hin.
  destruct Hin as [_ Hc]. apply andb_true_iff in Hc.
  apply file_line_contains_cs, Hc.
Qed.

(** X8: the count of the trailing line is never below the number of
    source files of the root listing, and it is that number when the
    root has no subdirectory. *)
Theorem count_covers_the_files (fuel : nat) (entries : list (str * node)) :
  let root_path := Dir entries in
  let items := items_of (map fst entries) in
  let dirs := dirs_of root_path items in
  let files := files_of root_path items in
  height root_path < fuel ->
  exists tree_lines,
    scan fuel root_path [] [] true = Some tree_lines
    /\ length files <= length (filter (contains EXT_CS) tree_lines)
    /\ (dirs = [] ->
        length (filter (contains EXT_CS) tree_lines) = length files).
Proof.
  intros root_path items dirs files Hfuel.
  exists (tree root_path []).
  split; [apply (scan_directory_total unicode_alnum _ [] [] true Hfuel)|].
  subst files dirs items root_path. rewrite tree_of_Dir. cbv zeta.
  rewrite filter_app, length_app, file_lines_all_contain_cs,
    length_file_lines.
  split; [lia|].
  intros Hd. rewrite Hd. cbn [enumerate enumerate_from map concat filter].
  cbn [length]. lia.
Qed.

End WalkerProperties.

(** ** The order of a listing *)

Section ListingOrder.

Variable unicode_alnum : char -> bool.

Local Abbreviation scan := (scan_directory unicode_alnum).
Local Abbreviation extract := (extract_class_info unicode_alnum).

Lemma insert_sorted_perm (x : str) (l : list str) :
  Permutation (insert_sorted x l) (x :: l).
Proof.
  induction l as [|y l IH]; simpl; [reflexivity|].
  destruct (str_leb x y); [reflexivity|].
  rewrite IH. apply perm_swap.
Qed.

Lemma sorted_perm (l : list str) : Permutation (sorted l) l.
Proof.
  induction l as [|x l IH]; simpl; [reflexivity|].
  rewrite insert_sorted_perm, IH. reflexivity.
Qed.

(** A list has one sorted rearrangement. *)
Lemma StronglySorted_unique (l1 : list str) :
  forall l2, StronglySorted str_le l1 -> StronglySorted str_le l2 ->
             Permutation l1 l2 -> l1 = l2.
Proof.
  induction l1 as [|a l1 IH]; intros l2 S1 S2 P.
  - apply Permutation_nil in P. auto.
  - destruct l2 as [|b l2];
      [apply Permutation_sym, Permutation_nil in P; discriminate|].
    apply StronglySorted_inv in S1, S2.
    destruct S1 as [S1 F1], S2 as [S2 F2].
    rewrite Forall_forall in F1, F2.
    assert (a = b).
    { assert (Ha : In a (b :: l2))
        by (eapply Permutation_in; [exact P | left; reflexivity]).
      assert (Hb : In b (a :: l1))
        by (eapply Permutation_in;
            [apply Permutation_sym, P | left; reflexivity]).
      destruct Ha as [->|Ha]; [reflexivity|].
      destruct Hb as [->|Hb]; [reflexivity|].
      apply str_leb_antisym; [apply F1, Hb | apply F2, Ha]. }
    subst b. f_equal. apply IH; auto.
    eapply Permutation_cons_inv, P.
Qed.

Lemma sorted_of_permutation (l l' : list str) :
  Permutation l l' -> sorted l = sorted l'.
Proof.
  intros P. apply StronglySorted_unique;
    auto using sorted_StronglySorted.
  rewrite !sorted_perm. exact P.
Qed.

Lemma same_tree_kind (a b : node) :
  same_tree a b -> isdir a = isdir b /\ isfile a = isfile b /\ read a = read b.
Proof. intros []; auto. Qed.

Lemma scan_directory_same_tree (fuel : nat) :
  forall r1 r2 prefix out is_last,
    same_tree r1 r2 ->
    scan fuel r1 prefix out is_last = scan fuel r2 prefix out is_last.
Proof.
  induction fuel as [|fuel IH]; intros r1 r2 prefix out is_last H;
    [reflexivity|].
  destruct H as [n|es es' Hperm Hsub]; [reflexivity|].
  rewrite !scan_directory_S. cbn [listdir]. cbv zeta.
  unfold items_of. rewrite (sorted_of_permutation Hperm).
  set (items := filter kept (sorted (map fst es'))).
  assert (Hd : dirs_of (Dir es) items = dirs_of (Dir es') items).
  { apply filter_ext. intros item. cbn [path_join].
    apply (same_tree_kind (Hsub item)). }
  assert (Hf : files_of (Dir es) items = files_of (Dir es') items).
  { apply filter_ext. intros item. cbn [path_join].
    destruct (same_tree_kind (Hsub item)) as [_ [-> _]]. reflexivity. }
  rewrite Hd, Hf.
  set (dirs := dirs_of (Dir es') items).
  set (files := files_of (Dir es') items).
  assert (Hl : scan_files unicode_alnum (Dir es) prefix files dirs out
               = scan_files unicode_alnum (Dir es') prefix files dirs out).
  { rewrite !scan_files_app. f_equal. apply map_ext.
    intros [i f]. unfold file_line, extract_class_info. cbn [path_join].
    destruct (same_tree_kind (Hsub f)) as [_ [_ ->]]. reflexivity. }
  rewrite Hl. unfold scan_dirs. apply fold_left_ext_in.
  intros [i d] _ [acc|]; [|reflexivity].
  cbn [path_join]. apply IH, Hsub.
Qed.

(** With names that are all different, the entries in another order
    are the same tree. *)
Lemma lookup_permutation (name : str) (es es' : list (str * node)) :
  Permutation es es' -> NoDup (map fst es) ->
  lookup name es = lookup name es'.
Proof.
  induction 1 as [|[n c] l l' P IH|[n1 c1] [n2 c2] l|l l' l'' P1 IH1 P2 IH2];
    intros ND.
  - reflexivity.
  - cbn [lookup]. rewrite IH; [reflexivity|].
    cbn [map fst] in ND. apply NoDup_cons_iff in ND. tauto.
  - cbn [lookup]. cbn [map fst] in ND.
    apply NoDup_cons_iff in ND. destruct ND as [ND _].
    destruct (str_eqb n1 name) eqn:E1, (str_eqb n2 name) eqn:E2;
      try reflexivity.
    apply str_eqb_eq in E1, E2. exfalso. apply ND. left. congruence.
  - rewrite IH1 by exact ND. apply IH2.
    eapply Permutation_NoDup; [|exact ND].
    apply Permutation_map, P1.
Qed.

Lemma permuted_entries_same_tree (es es' : list (str * node)) :
  Permutation es es' -> NoDup (map fst es) -> same_tree (Dir es) (Dir es').
Proof.
  intros P ND. apply same_dir; [apply Permutation_map, P|].
  intros name. rewrite (lookup_permutation name P ND). apply same_node.
Qed.

(** X9: the output does not depend on the order in which the system
    lists the entries of the directories, at any depth. *)
Theorem output_is_independent_of_listing_order (fuel : nat)
    (root_path root_path' : node) (prefix : str) (output_lines : list str)
    (is_last : bool) :
  same_tree root_path root_path' ->
  scan fuel root_path prefix output_lines is_last
  = scan fuel root_path' prefix output_lines is_last.
Proof. apply scan_directory_same_tree. Qed.

(** X10: when the names of a listing are all different, no name occurs
    twice among the files or among the subdirectories, and no name is
    both a file and a subdirectory. *)
Theorem entries_are_rendered_once (entries : list (str * node)) :
  let root_path := Dir entries in
  let items := items_of (map fst entries) in
  let dirs := dirs_of root_path items in
  let files := files_of root_path items in
  NoDup (map fst entries) ->
  NoDup files /\ NoDup dirs
  /\ (forall name, In name files -> ~ In name dirs).
Proof.
  intros root_path items dirs files ND.
  assert (Hitems : NoDup items).
  { apply NoDup_filter.
    eapply Permutation_NoDup; [apply Permutation_sym, sorted_perm | exact ND]. }
  split; [apply NoDup_filter, Hitems|].
  split; [apply NoDup_filter, Hitems|].
  intros name Hf Hd.
  apply filter_In in Hf, Hd. destruct Hf as [_ Hf], Hd as [_ Hd].
  apply andb_true_iff in Hf. destruct Hf as [Hf _].
  destruct (path_join root_path name); discriminate.
Qed.

End ListingOrder.

(** ** The document *)

Section DocumentProperties.

Variable unicode_alnum : char -> bool.

Local Abbreviation scan := (scan_directory unicode_alnum).

Lemma split_nl_plain (p : str) : ~ In NL p -> split_nl p = [p].
Proof.
  induction p as [|c p IH]; intros H; [reflexivity|].
  cbn [split_nl].
  destruct (char_eqb c NL) eqn:E.
  - apply char_eqb_eq in E. exfalso. apply H. left. auto.
  - rewrite IH; [reflexivity|]. intros Hin. apply H. right. exact Hin.
Qed.

Lemma split_nl_app (p r : str) :
  ~ In NL p -> split_nl (p ++ NL :: r) = p :: split_nl r.
Proof.
  induction p as [|c p IH]; intros H; [reflexivity|].
  cbn [app split_nl].
  destruct (char_eqb c NL) eqn:E.
  - apply char_eqb_eq in E. exfalso. apply H. left. auto.
  - rewrite IH; [reflexivity|]. intros Hin. apply H. right. exact Hin.
Qed.

(** Splitting at the newlines undoes joining with newlines. *)
Lemma split_nl_join (ls : list str) :
  ls <> [] -> Forall (fun l => ~ In NL l) ls ->
  split_nl (join [NL] ls) = ls.
Proof.
  induction ls as [|p ls IH]; intros Hne H; [congruence|].
  inversion H as [|? ? Hp Hls]. subst.
  destruct ls as [|q ls].
  - apply split_nl_plain, Hp.
  - change (join [NL] (p :: q :: ls)) with (p ++ NL :: join [NL] (q :: ls)).
    rewrite split_nl_app by exact Hp. f_equal.
    apply IH; [discriminate | exact Hls].
Qed.

Lemma digits_plain (u : Decimal.uint) : ~ In NL (digits u).
Proof.
  induction u; cbn [digits In]; [tauto | ..];
    intros [E|H]; try discriminate E; auto.
Qed.

Lemma count_line_plain (tree_lines : list str) :
  ~ In NL (count_line tree_lines).
Proof.
  unfold count_line, str_of_nat. rewrite !in_app_iff.
  intros [H|[H|H]].
  - cbv in H. intuition discriminate.
  - eapply digits_plain, H.
  - cbv in H. intuition discriminate.
Qed.

(** X11: read back line by line, the document is its six heading
    lines, the tree lines and the three closing lines, as long as no
    tree line has a newline in it. *)
Theorem document_reads_back_line_by_line (fuel : nat) (root_path : node) :
  height root_path < fuel ->
  exists tree_lines document,
    scan fuel root_path [] [] true = Some tree_lines
    /\ generate_markdown unicode_alnum fuel root_path = Some document
    /\ (Forall (fun l => ~ In NL l) tree_lines ->
        split_nl document
        = [ TITLE; []; SUBTITLE; []; FENCE; ROOT_LABEL ]
          ++ tree_lines ++ [ FENCE; []; count_line tree_lines ]).
Proof.
  intros Hfuel.
  assert (E : scan fuel root_path [] [] true
              = Some (tree_of unicode_alnum root_path []))
    by (apply scan_directory_total, Hfuel).
  exists (tree_of unicode_alnum root_path []),
    (join [NL] (document_lines (tree_of unicode_alnum root_path []))).
  split; [exact E|]. split; [unfold generate_markdown; rewrite E; reflexivity|].
  intros Hplain. apply split_nl_join; [discriminate|].
  unfold document_lines. apply Forall_app. split.
  - repeat constructor; intros H; cbv in H; intuition discriminate.
  - apply Forall_app. split; [exact Hplain|].
    repeat constructor; try (intros H; cbv in H; intuition discriminate).
    apply count_line_plain.
Qed.

End DocumentProperties.

(** ** Where the name and the summary come from *)

Section ExtractorOrigins.

Variable unicode_alnum : char -> bool.

Local Abbreviation match_here := (Re.match_here unicode_alnum).
Local Abbreviation search := (Re.search unicode_alnum).
Local Abbreviation name_search := (name_loop unicode_alnum).
Local Abbreviation extract := (extract_class_info unicode_alnum).

Lemma contains_firstn_self (n : nat) (s : str) :
  contains (firstn n s) s = true.
Proof.
  apply contains_spec. exists [], (skipn n s).
  symmetry. apply firstn_skipn.
Qed.

Lemma contains_skipn (sub : str) (k : nat) (s : str) :
  contains sub (skipn k s) = true -> contains sub s = true.
Proof.
  rewrite !contains_spec. intros [a [b E]].
  exists (firstn k s ++ a), b.
  rewrite <- (firstn_skipn k s) at 1. rewrite E, <- app_assoc. reflexivity.
Qed.

Lemma contains_prefix (l r : str) : contains l (l ++ r) = true.
Proof. apply contains_spec. exists [], r. reflexivity. Qed.

Lemma bare_match_substring (s : str) (gs : list str) (rest : str) :
  match_here bare_re s = Some (gs, rest) ->
  contains (group_of 2 gs) s = true.
Proof.
  unfold bare_re, group, plain. intros H.
  apply match_here_cons in H. destruct H as [n1 [gs1 [_ [H ->]]]].
  apply match_here_cons in H. destruct H as [n2 [gs2 [_ [H ->]]]].
  apply match_here_cons in H. destruct H as [n3 [gs3 [_ [H ->]]]].
  unfold group_of. simpl.
  apply contains_skipn with (k := n1).
  apply contains_skipn with (k := n2).
  apply contains_firstn_self.
Qed.

Lemma bare_search_substring (line : str) (gs : list str) :
  search bare_re line = Some gs -> contains (group_of 2 gs) line = true.
Proof.
  intros H. apply search_Some_inv in H. destruct H as [k [rest H]].
  apply contains_skipn with (k := k). eapply bare_match_substring, H.
Qed.

Lemma public_search_substring (line : str) (gs : list str) :
  search public_re line = Some gs -> contains (group_of 2 gs) line = true.
Proof.
  intros H. apply search_Some_inv in H. destruct H as [k [rest H]].
  unfold public_re, plain in H.
  apply match_here_cons in H. destruct H as [n1 [gs1 [_ [H ->]]]].
  apply match_here_cons in H. destruct H as [n2 [gs2 [_ [H ->]]]].
  apply contains_skipn with (k := k).
  apply contains_skipn with (k := n1).
  apply contains_skipn with (k := n2).
  eapply bare_match_substring, H.
Qed.

(** X12: a name that is not empty is text of the file: it occurs in
    one of its lines. *)
Theorem name_occurs_in_the_file (content : str) :
  fst (extract (File content)) <> [] ->
  exists line a b,
    In line (split_nl content)
    /\ line = a ++ fst (extract (File content)) ++ b.
Proof.
  unfold extract_class_info. cbn [read fst].
  induction (split_nl content) as [|x lines IH]; simpl; [congruence|].
  destruct (Re.search unicode_alnum public_re x) as [gs|] eqn:P.
  - intros _. apply public_search_substring, contains_spec in P.
    destruct P as [a [b E]]. exists x, a, b. auto.
  - destruct (Re.search unicode_alnum bare_re x) as [gs|] eqn:B.
    + intros _. apply bare_search_substring, contains_spec in B.
      destruct B as [a [b E]]. exists x, a, b. auto.
    + intros H. destruct (IH H) as [line [a [b [Hin E]]]].
      exists line, a, b. auto.
Qed.

Lemma summary_match_tags (s : str) (gs : list str) (rest : str) :
  match_here summary_re s = Some (gs, rest) ->
  contains (lit "/// <summary>") s = true
  /\ contains (lit "/// </summary>") s = true.
Proof.
  unfold summary_re, group, plain. intros H.
  apply match_here_cons in H. destruct H as [n1 [gs1 [H1 [H ->]]]].
  apply match_here_cons in H. destruct H as [n2 [gs2 [_ [H ->]]]].
  apply match_here_cons in H. destruct H as [n3 [gs3 [_ [H ->]]]].
  apply match_here_cons in H. destruct H as [n4 [gs4 [_ [H ->]]]].
  apply match_here_cons in H. destruct H as [n5 [gs5 [_ [H ->]]]].
  apply match_here_cons in H. destruct H as [n6 [gs6 [_ [H ->]]]].
  apply match_here_cons in H. destruct H as [n7 [gs7 [_ [H ->]]]].
  apply match_here_cons in H. destruct H as [n8 [gs8 [_ [H ->]]]].
  apply match_here_cons in H. destruct H as [n9 [gs9 [_ [H ->]]]].
  apply match_here_cons in H. destruct H as [n10 [gs10 [H10 _]]].
  apply candidates_lit in H1, H10.
  destruct H1 as [_ [r1 E1]], H10 as [_ [r10 E10]]. split.
  - rewrite E1. apply contains_prefix.
  - apply contains_skipn with (k := n1).
    apply contains_skipn with (k := n2).
    apply contains_skipn with (k := n3).
    apply contains_skipn with (k := n4).
    apply contains_skipn with (k := n5).
    apply contains_skipn with (k := n6).
    apply contains_skipn with (k := n7).
    apply contains_skipn with (k := n8).
    apply contains_skipn with (k := n9).
    rewrite E10. apply contains_prefix.
Qed.

(** X13: a file gets a summary only if its text has the opening tag
    line [/// <summary>] and the closing tag line [/// </summary>]. *)
Theorem summary_needs_both_tags (content : str) :
  snd (extract (File content)) <> [] ->
  (exists a b, content = a ++ lit "/// <summary>" ++ b)
  /\ (exists a b, content = a ++ lit "/// </summary>" ++ b).
Proof.
  unfold extract_class_info. cbn [read snd]. unfold extract_summary.
  destruct (Re.search unicode_alnum summary_re content) as [gs|] eqn:E;
    [intros _ | congruence].
  apply search_Some_inv in E. destruct E as [k [rest E]].
  apply summary_match_tags in E. destruct E as [E1 E2].
  apply contains_skipn in E1, E2.
  rewrite <- !contains_spec. auto.
Qed.

End ExtractorOrigins.

(** ** Instances of the further properties *)

Lemma prefix_is_prepended_to_every_line_witness :
  height fixture < 3
  /\ scan_directory ascii_only 3 fixture CONT_MID [] true
     = Some (map (app CONT_MID) (tree_of ascii_only fixture [])).
Proof.
  assert (H : height fixture < 3) by (vm_compute; lia).
  split; [exact H|].
  apply (@prefix_is_prepended_to_every_line ascii_only 3 fixture CONT_MID
           [] true H).
Defined.

Lemma every_source_file_is_listed_witness :
  exists result i label,
    scan_directory ascii_only 3 fixture [] [] true = Some result
    /\ nth_error [lit "A.cs"] i = Some (lit "A.cs")
    /\ nth_error result i
       = Some (connector_of (Nat.eqb (S i) 1 && Nat.eqb 1 0)
               ++ lit "A.cs" ++ label).
Proof.
  apply (@every_source_file_is_listed ascii_only 3 fixture_entries [] []
           true (lit "A.cs")).
  - vm_compute. lia.
  - vm_compute. tauto.
  - reflexivity.
  - reflexivity.
Defined.

Lemma every_subdirectory_is_listed_witness :
  exists result j,
    scan_directory ascii_only 3 fixture [] [] true = Some result
    /\ nth_error [lit "sub"] j = Some (lit "sub")
    /\ In (connector_of (Nat.eqb (S j) 1) ++ lit "sub" ++ lit "/") result.
Proof.
  apply (@every_subdirectory_is_listed ascii_only 3 fixture_entries [] []
           true (lit "sub")).
  - vm_compute. lia.
  - vm_compute. tauto.
  - reflexivity.
  - reflexivity.
Defined.

Lemma count_covers_the_files_witness :
  exists tree_lines,
    scan_directory ascii_only 2 (Dir unreadable_entries) [] [] true
    = Some tree_lines
    /\ 1 <= length (filter (contains EXT_CS) tree_lines)
    /\ length (filter (contains EXT_CS) tree_lines) = 1.
Proof.
  destruct (@count_covers_the_files ascii_only 2 unreadable_entries)
    as [tree_lines [E [Hge Heq]]].
  - vm_compute. lia.
  - exists tree_lines. split; [exact E|]. split; [exact Hge|].
    apply Heq. reflexivity.
Defined.

Lemma output_is_independent_of_listing_order_witness :
  scan_directory ascii_only 3 fixture [] [] true
  = scan_directory ascii_only 3 (Dir fixture_entries_reordered) [] [] true.
Proof.
  apply output_is_independent_of_listing_order.
  apply permuted_entries_same_tree.
  - unfold fixture_entries, fixture_entries_reordered.
    apply (Permutation_cons_app
             [ (lit "A.cs", A_cs);
               (lit ".git", Dir [ (lit "hook.cs", File []) ]) ]
             [ (lit "A.cs.meta", File []) ]).
    apply (Permutation_cons_app
             [ (lit "A.cs", A_cs);
               (lit ".git", Dir [ (lit "hook.cs", File []) ]) ]
             []).
    apply perm_swap.
  - repeat constructor; vm_compute; intuition discriminate.
Defined.

Lemma entries_are_rendered_once_witness :
  NoDup [lit "A.cs"] /\ NoDup [lit "sub"]
  /\ (forall name, In name [lit "A.cs"] -> ~ In name [lit "sub"]).
Proof.
  apply (@entries_are_rendered_once fixture_entries).
  repeat constructor; vm_compute; intuition discriminate.
Defined.

Lemma document_reads_back_line_by_line_witness :
  exists tree_lines document,
    scan_directory ascii_only 3 fixture [] [] true = Some tree_lines
    /\ generate_markdown ascii_only 3 fixture = Some document
    /\ (Forall (fun l => ~ In NL l) tree_lines ->
        split_nl document
        = [ TITLE; []; SUBTITLE; []; FENCE; ROOT_LABEL ]
          ++ tree_lines
          ++ [ FENCE; []; count_line tree_lines ]).
Proof.
  apply (@document_reads_back_line_by_line ascii_only 3 fixture).
  vm_compute. lia.
Defined.

Lemma name_occurs_in_the_file_witness :
  exists line a b,
    In line (split_nl two_declarations)
    /\ line = a ++ fst (extract_class_info ascii_only (File two_declarations))
              ++ b.
Proof.
  apply (@name_occurs_in_the_file ascii_only two_declarations).
  vm_compute. discriminate.
Defined.

Lemma summary_needs_both_tags_witness :
  (exists a b, text_of [ summary_block (lit "Does X");
                         lit "public class Foo { }" ]
               = a ++ lit "/// <summary>" ++ b)
  /\ (exists a b, text_of [ summary_block (lit "Does X");
                            lit "public class Foo { }" ]
                  = a ++ lit "/// </summary>" ++ b).
Proof.
  apply (@summary_needs_both_tags ascii_only).
  vm_compute. discriminate.
Defined.

Lemma name_is_made_of_word_characters_witness :
  Forall (fun c => isspace c = false)
    (fst (extract_class_info ascii_only (File two_declarations))).
Proof.
  apply (proj2 (proj2 (proj2
    (@name_is_made_of_word_characters ascii_only two_declarations)))).
  intros c H. discriminate H.
Defined.
